(** * ShieldAI detection engine: a shallow embedding and its properties

    The development follows the Python package [backend/src/detectors]:
    - [Py]         the fragment of Python the code relies on (str as a
                   sequence of code points, slicing, [str.find],
                   [str.startswith], [re.finditer] on an escaped literal,
                   stable [sorted], exceptions);
    - [Dictionary] [dictionary.py]  (DictionaryEntry, DictionaryDetector);
    - [LLM]        [llm_detector.py] (LLMDetector and the Ollama client it
                   talks to);
    - [Patterns]   [japanese_patterns.py] (the honorific-name recognizer);
    - [Engine]     [engine.py] (ShieldAIEngine: detect, _mask_text,
                   _remove_overlapping);
    - [DictionaryStore] [dictionary.py] (the Dictionary class, its file
                   format, DictionaryManager and the CSV import);
    - [Server]     the constructor of the engine and the handlers of
                   [api/server.py] that own the global engine.

    Python [int] is [Z]; a [str] is a list of code points; a confidence
    score (a Python float in [0, 1]) is a rational of [Q], ordered and
    negated exactly; NaN scores are outside the model. *)

From Stdlib Require Import QArith.
From stdpp Require Import base numbers option list sorting strings gmap.
Local Open Scope Z_scope.
Set Warnings "-register-all".

(* ===================================================================== *)
(** ** Python values and built-ins                                        *)
(* ===================================================================== *)

Module Py.

(** A Python [str]: its code points, in order. *)
Definition pystr := list N.

(** Source literals are written in UTF-8 and decoded to code points. *)
Definition flush (acc : option N) : pystr :=
  match acc with Some c => [c] | None => [] end.

Fixpoint utf8_go (bs : list N) (acc : option N) : pystr :=
  match bs with
  | [] => flush acc
  | b :: bs' =>
      if (b <? 0x80)%N then flush acc ++ b :: utf8_go bs' None
      else if (b <? 0xC0)%N
      then utf8_go bs' (Some (default 0%N acc * 64 + b mod 64)%N)
      else flush acc ++
           utf8_go bs' (Some (if (b <? 0xE0)%N then b mod 32
                              else if (b <? 0xF0)%N then b mod 16
                              else b mod 8)%N)
  end.

Definition u8 (s : string) : pystr :=
  utf8_go (Ascii.N_of_ascii <$> String.list_ascii_of_string s) None.

(** [len(s)] *)
Definition len {A} (s : list A) : Z := Z.of_nat (length s).

(** Slice bounds as CPython's [PySlice_AdjustIndices] computes them for
    step 1: a negative index counts from the end, then the index is
    clamped into [0, len]. *)
Definition adjust_index (n i : Z) : Z :=
  if i <? 0 then (if i + n <? 0 then 0 else i + n)
  else (if n <? i then n else i).

(** [s[:stop]] *)
Definition slice_to {A} (s : list A) (stop : Z) : list A :=
  take (Z.to_nat (adjust_index (len s) stop)) s.

(** [s[start:]] *)
Definition slice_from {A} (s : list A) (start : Z) : list A :=
  drop (Z.to_nat (adjust_index (len s) start)) s.

(** [s[start:stop]] *)
Definition slice {A} (s : list A) (start stop : Z) : list A :=
  let lo := Z.to_nat (adjust_index (len s) start) in
  let hi := Z.to_nat (adjust_index (len s) stop) in
  take (hi - lo)%nat (drop lo s).

(** [s.startswith(p)] *)
Fixpoint startswith (s p : pystr) {struct p} : bool :=
  match p, s with
  | [], _ => true
  | _ :: _, [] => false
  | c :: p', c' :: s' => (c =? c')%N && startswith s' p'
  end.

(** [s.find(sub)] scanning from offset [pos] of the original string:
    the lowest index at which [sub] occurs, or [-1]. *)
Fixpoint find_from (s sub : pystr) (pos : Z) : Z :=
  if startswith s sub then pos
  else match s with
       | [] => -1
       | _ :: s' => find_from s' sub (pos + 1)
       end.

Definition find (s sub : pystr) : Z := find_from s sub 0.

(** [re.finditer(re.escape(lit), s)]: the spans [(start, end)] of the
    occurrences of the literal, left to right and not overlapping; the
    scan resumes at the end of a match.  [skip] counts the characters
    still covered by the previous match.  The empty literal matches
    once at every position, the end of the string included. *)
Fixpoint finditer_from (lit s : pystr) (pos : Z) (skip : nat)
  : list (Z * Z) :=
  match s with
  | [] => match skip, lit with
          | O, [] => [(pos, pos)]
          | _, _ => []
          end
  | _ :: s' =>
      match skip with
      | S k => finditer_from lit s' (pos + 1) k
      | O =>
          if startswith s lit
          then (pos, pos + len lit)
                 :: finditer_from lit s' (pos + 1) (pred (length lit))
          else finditer_from lit s' (pos + 1) O
      end
  end.

Definition finditer_literal (lit s : pystr) : list (Z * Z) :=
  finditer_from lit s 0 O.

(** [sorted(l, key=...)] compares keys with [<] only and is stable:
    [lt x y] stands for [key(x) < key(y)].  For a key order that is a
    strict weak order the stable sorted arrangement is unique, so it is
    computed here by stable insertion. *)
Section Sorted.
Context {A : Type} (lt : A -> A -> bool).

Fixpoint insert_sorted (x : A) (l : list A) : list A :=
  match l with
  | [] => [x]
  | y :: l' => if lt y x then y :: insert_sorted x l' else x :: y :: l'
  end.

Fixpoint sorted (l : list A) : list A :=
  match l with
  | [] => []
  | x :: l' => insert_sorted x (sorted l')
  end.
End Sorted.

(** Exceptions: a computation returns a value or raises. *)
Inductive exn : Type :=
  | ImportError | ConnectionError | KeyError | JSONDecodeError
  | AttributeError | TypeError | OtherError.

Inductive result (A : Type) : Type :=
  | Ok (a : A)
  | Raise (e : exn).
Arguments Ok {A} a.
Arguments Raise {A} e.

Definition bind {A B} (m : result A) (k : A -> result B) : result B :=
  match m with
  | Ok a => k a
  | Raise e => Raise e
  end.

#[global] Instance result_ret : MRet result := @Ok.
#[global] Instance result_bind : MBind result :=
  fun A B (k : A -> result B) (m : result A) => bind m k.

(** [try: m  except Exception as e: h e] *)
Definition try_except {A} (m : result A) (h : exn -> result A) : result A :=
  match m with
  | Ok a => Ok a
  | Raise e => h e
  end.

End Py.


(* ===================================================================== *)
(** ** presidio_analyzer: what the engine reads of a RecognizerResult     *)
(* ===================================================================== *)

Module Presidio.

Record RecognizerResult : Type := {
  entity_type : Py.pystr;
  start : Z;
  end_ : Z;
  score : Q
}.

End Presidio.

(* ===================================================================== *)
(** ** dictionary.py                                                      *)
(* ===================================================================== *)

Module Dictionary.
Import Py.

Record DictionaryEntry : Type := {
  value : pystr;
  label : pystr;
  category : pystr   (* companies, projects, persons, custom *)
}.

(** The field [label] of the source is [label_] here. *)
Record DictionaryDetection : Type := {
  entity_type : pystr;
  text : pystr;
  start : Z;
  end_ : Z;
  score : Q;
  label_ : pystr
}.

Section Detector.
(** Python's [str.upper], a built-in taken as given. *)
Variable str_upper : pystr -> pystr.

(** The detections one entry contributes: one per match of
    [re.finditer(re.escape(entry.value), text)]. *)
Definition detect_entry (text : pystr) (entry : DictionaryEntry)
  : list DictionaryDetection :=
  (fun m : Z * Z =>
     {| entity_type := u8 "DICT_" ++ str_upper (category entry);
        text := slice text m.1 m.2;
        start := m.1;
        end_ := m.2;
        score := 0.95%Q;
        label_ := label entry |})
    <$> finditer_literal (value entry) text.

(** [DictionaryDetector.detect], over the entries that
    [manager.get_all_entries()] returns. *)
Definition detect (entries : list DictionaryEntry) (text : pystr)
  : list DictionaryDetection :=
  entries ≫= detect_entry text.
End Detector.

End Dictionary.

(* ===================================================================== *)
(** ** llm_detector.py                                                    *)
(* ===================================================================== *)

Module LLM.
Import Py.

Record LLMDetection : Type := {
  entity_type : pystr;
  text : pystr;
  start : Z;
  end_ : Z;
  score : Q
}.

(** The Python object [json.loads] returns.  A [JDict] lists the items
    of the dict, whose keys are distinct. *)
Inductive json : Type :=
  | JNull
  | JBool (b : bool)
  | JNum (q : Q)
  | JStr (s : pystr)
  | JList (l : list json)
  | JDict (items : list (pystr * json)).

(** Truth value of an object, as [not value] tests it. *)
Definition truthy (v : json) : bool :=
  match v with
  | JNull => false
  | JBool b => b
  | JNum q => negb (Qeq_bool q 0)
  | JStr s => negb (bool_decide (s = []))
  | JList l => match l with [] => false | _ => true end
  | JDict kv => match kv with [] => false | _ => true end
  end.

Fixpoint assoc (kv : list (pystr * json)) (key : pystr) : option json :=
  match kv with
  | [] => None
  | (k, v) :: kv' => if bool_decide (k = key) then Some v else assoc kv' key
  end.

(** [obj.get(key, dflt)]: only a dict has the method. *)
Definition get (obj : json) (key : pystr) (dflt : json) : result json :=
  match obj with
  | JDict kv => Ok (default dflt (assoc kv key))
  | _ => Raise AttributeError
  end.

(** The items [for item in obj] runs through. *)
Definition iterate (obj : json) : result (list json) :=
  match obj with
  | JList l => Ok l
  | JStr s => Ok ((fun c => JStr [c]) <$> s)
  | JDict kv => Ok ((fun p : pystr * json => JStr p.1) <$> kv)
  | JNull | JBool _ | JNum _ => Raise TypeError
  end.

(** The Ollama service as one detector sees it.  [Client(host=...)] is
    taken to construct whenever the import succeeded. *)
Record LLMDetector : Type := {
  model : pystr;
  base_url : pystr;
  OLLAMA_AVAILABLE : bool;
  (** outcome of [self.client.list()] *)
  client_list : result unit;
  (** outcome of [json.loads(self.client.chat(model, messages, ...)
      ["message"]["content"])], by model and user message: the call,
      the two subscripts and the parse may each raise *)
  client_chat_json : pystr -> pystr -> result json
}.

Definition is_available (self : LLMDetector) : bool :=
  if negb (OLLAMA_AVAILABLE self) then false
  else match client_list self with
       | Ok _ => true
       | Raise _ => false
       end.

Definition mapping : gmap pystr pystr :=
  list_to_map [
    (u8 "個人名", u8 "PERSON");
    (u8 "会社名", u8 "ORGANIZATION");
    (u8 "企業名", u8 "ORGANIZATION");
    (u8 "プロジェクト名", u8 "PROJECT_NAME");
    (u8 "機密情報", u8 "CONFIDENTIAL")
  ].

(** [_map_type]: [mapping.get(japanese_type, "CONFIDENTIAL")]; a list
    or a dict is unhashable. *)
Definition _map_type (japanese_type : json) : result pystr :=
  match japanese_type with
  | JStr s => Ok (default (u8 "CONFIDENTIAL") (mapping !! s))
  | JNull | JBool _ | JNum _ => Ok (u8 "CONFIDENTIAL")
  | JList _ | JDict _ => Raise TypeError
  end.

(** One turn of the loop over [result.get("detected", [])]: [None] is
    a [continue], [Some d] an [append]. *)
Definition detect_item (text : pystr) (item : json)
  : result (option LLMDetection) :=
  value ← get item (u8 "value") (JStr []);
  if negb (truthy value) then Ok None
  else match value with
       | JStr v =>
           let start := find text v in
           if start =? -1 then Ok None
           else
             ty ← get item (u8 "type") (JStr (u8 "機密情報"));
             entity_type ← _map_type ty;
             Ok (Some {| entity_type := entity_type;
                         text := v;
                         start := start;
                         end_ := start + len v;
                         score := 0.75%Q |})
       | _ => Raise TypeError   (* text.find(value), value not a str *)
       end.

Fixpoint detect_loop (text : pystr) (items : list json)
    (detections : list LLMDetection) : result (list LLMDetection) :=
  match items with
  | [] => Ok detections
  | item :: rest =>
      d ← detect_item text item;
      detect_loop text rest
        (match d with Some x => detections ++ [x] | None => detections end)
  end.

Definition user_message (text : pystr) : pystr :=
  u8 "以下のテキストを分析:" ++ [10%N; 10%N] ++ text.

Definition detect (self : LLMDetector) (text : pystr)
  : result (list LLMDetection) :=
  if negb (is_available self) then Ok []
  else
    try_except
      (result ← client_chat_json self (model self) (user_message text);
       detected ← get result (u8 "detected") (JList []);
       items ← iterate detected;
       detect_loop text items [])
      (fun _ => Ok []).

End LLM.

(* ===================================================================== *)
(** ** japanese_patterns.py: the honorific-name recognizer                *)
(* ===================================================================== *)

Module Patterns.
Import Py.

(** [JapaneseHonorificNameRecognizer.DENY_LIST] *)
Definition DENY_LIST : gset pystr :=
  list_to_set (u8 <$> [
    "お客様"; "皆様"; "各位"; "担当者様"; "御担当者様"; "ご担当者様";
    "関係者様"; "責任者様"; "代表者様"; "管理者様"; "窓口様";
    "御中"; "貴社様"; "弊社"; "当社"; "御社";
    "皆さん"; "皆さま"; "みなさま"; "あなた様";
    "お客さん"; "お客さま"; "先生"; "先輩"; "後輩";
    "部長"; "課長"; "係長"; "社長"; "会長"; "専務"; "常務"; "取締役"
  ]%string).

(** [JapaneseHonorificNameRecognizer.analyze]; [super_analyze text]
    stands for [super().analyze(text, entities, nlp_artifacts)], the
    pattern matching of presidio's PatternRecognizer. *)
Definition analyze
    (super_analyze : pystr -> list Presidio.RecognizerResult)
    (text : pystr) : list Presidio.RecognizerResult :=
  filter
    (fun result =>
       slice text (Presidio.start result) (Presidio.end_ result)
         ∉ DENY_LIST)
    (super_analyze text).

End Patterns.

(* ===================================================================== *)
(** ** engine.py                                                          *)
(* ===================================================================== *)

Module Engine.
Import Py.

Record Detection : Type := {
  entity_type : pystr;
  text : pystr;
  start : Z;
  end_ : Z;
  score : Q;
  method : pystr   (* "regex", "dictionary" or "llm" *)
}.

(** [processing_time_ms], a wall-clock reading that no decision reads,
    is left out. *)
Record DetectionResult : Type := {
  original_text : pystr;
  masked_text : pystr;
  detections : list Detection
}.

Definition ENTITY_LABELS : gmap pystr pystr :=
  list_to_map [
    (u8 "PERSON", u8 "個人名");
    (u8 "ORGANIZATION", u8 "会社名");
    (u8 "EMAIL_ADDRESS", u8 "メールアドレス");
    (u8 "PHONE_NUMBER", u8 "電話番号");
    (u8 "JP_PHONE_NUMBER", u8 "電話番号");
    (u8 "CREDIT_CARD", u8 "クレジットカード");
    (u8 "JP_POSTAL_CODE", u8 "郵便番号");
    (u8 "JP_ADDRESS", u8 "住所");
    (u8 "JP_MY_NUMBER", u8 "マイナンバー");
    (u8 "JP_CURRENCY", u8 "金額");
    (u8 "JP_COMPANY", u8 "会社名");
    (u8 "JP_PERSON_NAME", u8 "個人名");
    (u8 "API_KEY", u8 "APIキー");
    (u8 "IP_ADDRESS", u8 "IPアドレス");
    (u8 "URL", u8 "URL");
    (u8 "PROJECT_NAME", u8 "プロジェクト名");
    (u8 "CONFIDENTIAL", u8 "機密情報");
    (u8 "DICT_COMPANIES", u8 "会社名");
    (u8 "DICT_PROJECTS", u8 "プロジェクト名");
    (u8 "DICT_PERSONS", u8 "個人名");
    (u8 "DICT_CUSTOM", u8 "機密情報")
  ].

(** [ENTITY_LABELS.get(entity_type, "機密情報")] *)
Definition get_entity_label (entity_type : pystr) : pystr :=
  default (u8 "機密情報") (ENTITY_LABELS !! entity_type).

(** *** _remove_overlapping *)

Definition method_priority (d : Detection) : Z :=
  if bool_decide (method d = u8 "dictionary") then 0
  else if startswith (entity_type d) (u8 "JP_")
          || bool_decide (entity_type d ∈
               [u8 "EMAIL_ADDRESS"; u8 "CREDIT_CARD"; u8 "API_KEY"])
  then 1
  else if bool_decide (entity_type d ∈ [u8 "PERSON"; u8 "ORGANIZATION"])
  then 3
  else 2.

Definition get_priority (d : Detection) : Z * Z * Q :=
  (method_priority d, - (end_ d - start d), (- score d)%Q).

(** [a < b] on the priority tuples: the first differing component
    decides. *)
Definition priority_lt (a b : Z * Z * Q) : bool :=
  let '(m1, l1, s1) := a in
  let '(m2, l2, s2) := b in
  if negb (m1 =? m2) then m1 <? m2
  else if negb (l1 =? l2) then l1 <? l2
  else match (s1 ?= s2)%Q with
       | Lt => true
       | _ => false
       end.

(** [not (det.end <= accepted.start or det.start >= accepted.end)] *)
Definition overlaps (det accepted : Detection) : bool :=
  negb ((end_ det <=? start accepted) || (start det >=? end_ accepted)).

(** The inner loop: [should_add] stays true unless some accepted
    detection overlaps. *)
Definition should_add (det : Detection) (result : list Detection) : bool :=
  negb (existsb (overlaps det) result).

Definition accept (result : list Detection) (det : Detection)
  : list Detection :=
  if should_add det result then result ++ [det] else result.

Definition _remove_overlapping (detections : list Detection)
  : list Detection :=
  match detections with
  | [] => []
  | _ =>
      let sorted_dets :=
        sorted (fun a b => priority_lt (get_priority a) (get_priority b))
               detections in
      fold_left accept sorted_dets []
  end.

(** *** _mask_text *)

(** [result[:detection.start] + f"[{label}]" + result[detection.end:]] *)
Definition splice (result : pystr) (detection : Detection) : pystr :=
  let label := get_entity_label (entity_type detection) in
  slice_to result (start detection)
    ++ (u8 "[" ++ label ++ u8 "]")
    ++ slice_from result (end_ detection).

Definition _mask_text (text : pystr) (detections : list Detection)
  : pystr :=
  match detections with
  | [] => text
  | _ =>
      let filtered := _remove_overlapping detections in
      (* key = start, reverse = True: descending, still stable *)
      let sorted_detections :=
        sorted (fun a b => start b <? start a) filtered in
      fold_left splice sorted_detections text
  end.

(** *** detect *)

Record ShieldAIEngine : Type := {
  use_llm : bool;
  min_text_length_for_llm : Z;
  (** [self.analyzer.analyze(text=..., language=..., entities=None)] *)
  analyzer : pystr -> pystr -> list Presidio.RecognizerResult;
  (** [self.dictionary_manager.get_all_entries()] *)
  dictionary_entries : list Dictionary.DictionaryEntry;
  llm_detector : option LLM.LLMDetector
}.

(** What a run does to the outside: calls of [llm_detector.detect]. *)
Inductive event : Type :=
  | LLMDetect (text : pystr).

Definition of_presidio (text : pystr) (result : Presidio.RecognizerResult)
  : Detection :=
  {| entity_type := Presidio.entity_type result;
     text := slice text (Presidio.start result) (Presidio.end_ result);
     start := Presidio.start result;
     end_ := Presidio.end_ result;
     score := Presidio.score result;
     method := u8 "regex" |}.

Definition of_dictionary (result : Dictionary.DictionaryDetection)
  : Detection :=
  {| entity_type := Dictionary.entity_type result;
     text := Dictionary.text result;
     start := Dictionary.start result;
     end_ := Dictionary.end_ result;
     score := Dictionary.score result;
     method := u8 "dictionary" |}.

Definition of_llm (result : LLM.LLMDetection) : Detection :=
  {| entity_type := LLM.entity_type result;
     text := LLM.text result;
     start := LLM.start result;
     end_ := LLM.end_ result;
     score := LLM.score result;
     method := u8 "llm" |}.

Section Detect.
Variable str_upper : pystr -> pystr.

(** Stages 1 and 2: the detections collected before the LLM stage. *)
Definition stage12 (self : ShieldAIEngine) (text language : pystr)
  : list Detection :=
  (of_presidio text <$> analyzer self text language)
    ++ (of_dictionary
          <$> Dictionary.detect str_upper (dictionary_entries self) text).

(** The condition of stage 3:
    [self.use_llm and self.llm_detector and len(detections) == 0
     and len(text) >= self.min_text_length_for_llm] *)
Definition llm_gate (self : ShieldAIEngine) (text : pystr)
    (detections : list Detection) : bool :=
  use_llm self
  && bool_decide (is_Some (llm_detector self))
  && (len detections =? 0)
  && (len text >=? min_text_length_for_llm self).

Definition finish (text : pystr) (detections : list Detection)
  : DetectionResult :=
  {| original_text := text;
     masked_text := _mask_text text detections;
     detections := detections |}.

(** [ShieldAIEngine.detect]: the events of the run and its outcome. *)
Definition detect (self : ShieldAIEngine) (text language : pystr)
  : list event * result DetectionResult :=
  let detections := stage12 self text language in
  if llm_gate self text detections then
    match llm_detector self with
    | Some llm =>
        ([LLMDetect text],
         llm_results ← LLM.detect llm text;
         Ok (finish text (detections ++ (of_llm <$> llm_results))))
    | None => ([], Raise AttributeError)
    end
  else ([], Ok (finish text detections)).
End Detect.

End Engine.

(* ===================================================================== *)
(** ** dictionary.py: the Dictionary class and its manager               *)
(* ===================================================================== *)

Module DictionaryStore.
Import Py.

Record Dictionary : Type := {
  version : pystr;
  updated_at : pystr;
  entries : list Dictionary.DictionaryEntry
}.

(** [Dictionary()] *)
Definition empty : Dictionary :=
  {| version := u8 "1.0"; updated_at := []; entries := [] |}.

(** The loop [for entry in self.entries: if entry.value == value]. *)
Definition has_value (value : pystr)
    (entries : list Dictionary.DictionaryEntry) : bool :=
  existsb (fun entry => bool_decide (Dictionary.value entry = value)) entries.

(** [Dictionary.add_entry]: the returned flag and the dictionary after
    the call; [now] is the reading [datetime.now().isoformat()]. *)
Definition add_entry (self : Dictionary) (value label category now : pystr)
  : bool * Dictionary :=
  if has_value value (entries self) then (false, self)
  else (true,
        {| version := version self;
           updated_at := now;
           entries := entries self
                        ++ [ {| Dictionary.value := value;
                                Dictionary.label := label;
                                Dictionary.category := category |} ] |}).

(** [self.entries.pop(i)] at the first [i] whose entry has the value. *)
Fixpoint pop_first (value : pystr) (entries : list Dictionary.DictionaryEntry)
  : option (list Dictionary.DictionaryEntry) :=
  match entries with
  | [] => None
  | entry :: rest =>
      if bool_decide (Dictionary.value entry = value) then Some rest
      else cons entry <$> pop_first value rest
  end.

(** [Dictionary.remove_entry] *)
Definition remove_entry (self : Dictionary) (value now : pystr)
  : bool * Dictionary :=
  match pop_first value (entries self) with
  | Some entries' =>
      (true, {| version := version self;
                updated_at := now;
                entries := entries' |})
  | None => (false, self)
  end.

(** The JSON document of a dictionary file, with the types the code
    expects: an object with optional strings "version" and "updated_at"
    and an optional object "entries" from category to a list of items,
    an item being an object with optional strings "value" and "label".
    The categories of "entries" are distinct, as the keys of an object
    are once loaded.  Documents with other types in these places are
    outside the model. *)
Record Item : Type := {
  item_value : option pystr;
  item_label : option pystr
}.

Record Document : Type := {
  doc_version : option pystr;
  doc_updated_at : option pystr;
  doc_entries : option (list (pystr * list Item))
}.

(** [{"value": entry.value, "label": entry.label}] *)
Definition item_of (entry : Dictionary.DictionaryEntry) : Item :=
  {| item_value := Some (Dictionary.value entry);
     item_label := Some (Dictionary.label entry) |}.

(** [grouped[key].append(item)] *)
Definition append_to (grouped : list (pystr * list Item)) (key : pystr)
    (item : Item) : list (pystr * list Item) :=
  (fun g : pystr * list Item =>
     if bool_decide (g.1 = key) then (g.1, g.2 ++ [item]) else g)
    <$> grouped.

(** One turn of the loop of [to_dict]. *)
Definition group_step (grouped : list (pystr * list Item))
    (entry : Dictionary.DictionaryEntry) : list (pystr * list Item) :=
  if bool_decide (Dictionary.category entry ∈ grouped.*1)
  then append_to grouped (Dictionary.category entry) (item_of entry)
  else append_to grouped (u8 "custom") (item_of entry).

Definition to_dict (self : Dictionary) : Document :=
  let grouped :=
    fold_left group_step (entries self)
      [(u8 "companies", []); (u8 "projects", []); (u8 "persons", []);
       (u8 "custom", [])] in
  {| doc_version := Some (version self);
     doc_updated_at := Some (updated_at self);
     doc_entries := Some grouped |}.

(** The entry of one item of a category; [item["value"]] raises
    KeyError when the key is missing. *)
Definition entry_of (category : pystr) (item : Item)
  : result Dictionary.DictionaryEntry :=
  match item_value item with
  | Some value =>
      Ok {| Dictionary.value := value;
            Dictionary.label := default (u8 "機密情報") (item_label item);
            Dictionary.category := category |}
  | None => Raise KeyError
  end.

(** The two nested loops of [from_dict], appending to [entries]. *)
Fixpoint entries_of_items (category : pystr) (items : list Item)
    (entries : list Dictionary.DictionaryEntry)
  : result (list Dictionary.DictionaryEntry) :=
  match items with
  | [] => Ok entries
  | item :: rest =>
      entry ← entry_of category item;
      entries_of_items category rest (entries ++ [entry])
  end.

Fixpoint entries_of_groups (groups : list (pystr * list Item))
    (entries : list Dictionary.DictionaryEntry)
  : result (list Dictionary.DictionaryEntry) :=
  match groups with
  | [] => Ok entries
  | (category, items) :: rest =>
      entries' ← entries_of_items category items entries;
      entries_of_groups rest entries'
  end.

Definition from_dict (data : Document) : result Dictionary :=
  entries ← entries_of_groups (default [] (doc_entries data)) [];
  Ok {| version := default (u8 "1.0") (doc_version data);
        updated_at := default [] (doc_updated_at data);
        entries := entries |}.

(** The file [custom.json]: absent, present but failing in [open] or
    [json.load], or holding a document. *)
Inductive file : Type :=
  | Missing
  | Unreadable
  | Stored (data : Document).

(** A manager: the file on disk and the lazily loaded dictionary. *)
Record DictionaryManager : Type := {
  custom_path : file;
  _dictionary : option Dictionary
}.

(** [_load_dictionary]: any exception is caught and the empty
    dictionary returned. *)
Definition _load_dictionary (self : DictionaryManager) : Dictionary :=
  match custom_path self with
  | Stored data =>
      match from_dict data with
      | Ok d => d
      | Raise _ => empty
      end
  | Unreadable => empty
  | Missing => empty
  end.

(** The property [dictionary]: the dictionary and the manager with it
    loaded. *)
Definition dictionary (self : DictionaryManager)
  : Dictionary * DictionaryManager :=
  match _dictionary self with
  | Some d => (d, self)
  | None =>
      let d := _load_dictionary self in
      (d, {| custom_path := custom_path self; _dictionary := Some d |})
  end.

(** [save_dictionary]; the write is taken to succeed. *)
Definition save_dictionary (self : DictionaryManager) : DictionaryManager :=
  let '(d, self) := dictionary self in
  {| custom_path := Stored (to_dict d); _dictionary := _dictionary self |}.

(** [DictionaryManager.add_entry]; the dictionary object is mutated in
    place, so the manager holds the updated one. *)
Definition manager_add_entry (self : DictionaryManager)
    (value label category now : pystr) : bool * DictionaryManager :=
  let '(d, self) := dictionary self in
  let '(result, d') := add_entry d value label category now in
  let self := {| custom_path := custom_path self; _dictionary := Some d' |} in
  if result then (result, save_dictionary self) else (result, self).

(** [DictionaryManager.remove_entry] *)
Definition manager_remove_entry (self : DictionaryManager)
    (value now : pystr) : bool * DictionaryManager :=
  let '(d, self) := dictionary self in
  let '(result, d') := remove_entry d value now in
  let self := {| custom_path := custom_path self; _dictionary := Some d' |} in
  if result then (result, save_dictionary self) else (result, self).

(** [get_all_entries] *)
Definition get_all_entries (self : DictionaryManager)
  : list Dictionary.DictionaryEntry * DictionaryManager :=
  let '(d, self) := dictionary self in (entries d, self).

Definition category_map : gmap pystr pystr :=
  list_to_map [
    (u8 "会社名", u8 "companies");
    (u8 "会社", u8 "companies");
    (u8 "企業", u8 "companies");
    (u8 "プロジェクト", u8 "projects");
    (u8 "案件", u8 "projects");
    (u8 "個人名", u8 "persons");
    (u8 "人名", u8 "persons");
    (u8 "その他", u8 "custom");
    (u8 "カスタム", u8 "custom")
  ].

Section ImportCsv.
(** Python's [str.strip], a built-in taken as given. *)
Variable str_strip : pystr -> pystr.
(** The reading of [datetime.now().isoformat()] at the row of that
    index. *)
Variable now : nat -> pystr.

(** One turn of the loop over the rows after the header: the dictionary
    and the count after it. *)
Definition import_row (state : Dictionary * Z) (indexed : nat * list pystr)
  : Dictionary * Z :=
  let '(d, count) := state in
  let '(i, row) := indexed in
  match row with
  | [] | [_] => state   (* len(row) < 2 *)
  | r0 :: r1 :: more =>
      let category_ja := str_strip r0 in
      let value := str_strip r1 in
      let label := match more with
                   | r2 :: _ => str_strip r2
                   | [] => category_ja
                   end in
      let category := default (u8 "custom") (category_map !! category_ja) in
      match value with
      | [] => state   (* [value and ...]: the empty value is skipped *)
      | _ =>
          let '(added, d') := add_entry d value label category (now i) in
          if added then (d', count + 1) else (d', count)
      end
  end.

(** [DictionaryManager.import_csv], on the rows [csv.reader] yields for
    [csv_content.strip().split("\n")] (the header first). *)
Definition import_csv (self : DictionaryManager) (rows : list (list pystr))
  : Z * DictionaryManager :=
  let '(d, self) := dictionary self in
  let '(d', count) :=
    fold_left import_row (imap (fun i row => (i, row)) (tail rows)) (d, 0) in
  let self := {| custom_path := custom_path self; _dictionary := Some d' |} in
  if 0 <? count then (count, save_dictionary self) else (count, self).
End ImportCsv.

End DictionaryStore.

(* ===================================================================== *)
(** ** engine.py: the constructor; api/server.py: the engine handlers     *)
(* ===================================================================== *)

Module Server.
Import Py.

(** What the constructor of an engine finds outside the program: the
    presidio analyzer with the registered recognizers, the dictionary
    file, and the Ollama service reached through a URL. *)
Record Environment : Type := {
  env_analyzer : pystr -> pystr -> list Presidio.RecognizerResult;
  env_custom_json : DictionaryStore.file;
  env_ollama_available : bool;
  env_client_list : pystr -> result unit;
  env_client_chat_json : pystr -> pystr -> pystr -> result LLM.json
}.

(** [LLMDetector(model=..., base_url=...)] *)
Definition LLMDetector_init (env : Environment) (model base_url : pystr)
  : LLM.LLMDetector :=
  {| LLM.model := model;
     LLM.base_url := base_url;
     LLM.OLLAMA_AVAILABLE := env_ollama_available env;
     LLM.client_list := env_client_list env base_url;
     LLM.client_chat_json := env_client_chat_json env base_url |}.

(** [ShieldAIEngine(use_llm, llm_model, ollama_url)], the other two
    arguments at their defaults; the entries are those the fresh
    dictionary manager loads. *)
Definition ShieldAIEngine_init (env : Environment) (use_llm : bool)
    (llm_model ollama_url : pystr) : Engine.ShieldAIEngine :=
  {| Engine.use_llm := use_llm;
     Engine.min_text_length_for_llm := 50;
     Engine.analyzer := env_analyzer env;
     Engine.dictionary_entries :=
       (DictionaryStore.get_all_entries
          {| DictionaryStore.custom_path := env_custom_json env;
             DictionaryStore._dictionary := None |}).1;
     Engine.llm_detector :=
       if use_llm then Some (LLMDetector_init env llm_model ollama_url)
       else None |}.

Definition default_llm_model : pystr := u8 "gemma2:9b".
Definition default_ollama_url : pystr := u8 "http://localhost:11434".

Record DetectRequest : Type := {
  request_text : pystr;
  request_use_llm : bool
}.

Record DetectionItem : Type := {
  entity_type : pystr;
  text : pystr;
  start : Z;
  end_ : Z;
  score : Q;
  method : pystr;
  label : pystr
}.

(** [processing_time_ms] is left out, as in [DetectionResult]. *)
Record DetectResponse : Type := {
  original_text : pystr;
  masked_text : pystr;
  detections : list DetectionItem;
  detection_count : Z
}.

Record ConfigRequest : Type := {
  config_use_llm : bool;
  config_llm_model : pystr;
  config_ollama_url : pystr
}.

(** What a handler answers: its value, or an HTTP error status. *)
Inductive http (A : Type) : Type :=
  | Respond (a : A)
  | HTTPError (status_code : Z).
Arguments Respond {A} a.
Arguments HTTPError {A} status_code.

(** [startup]: the global engine after it. *)
Definition startup (env : Environment) : option Engine.ShieldAIEngine :=
  Some (ShieldAIEngine_init env false default_llm_model default_ollama_url).

Definition item_of (d : Engine.Detection) : DetectionItem :=
  {| entity_type := Engine.entity_type d;
     text := Engine.text d;
     start := Engine.start d;
     end_ := Engine.end_ d;
     score := Engine.score d;
     method := Engine.method d;
     label := Engine.get_entity_label (Engine.entity_type d) |}.

Section Handlers.
Variable str_upper : pystr -> pystr.

(** [POST /detect]: the calls of the LLM detector made, the answer, and
    the global engine after the request.  An exception escaping the
    handler is answered with status 500. *)
Definition detect (env : Environment)
    (engine : option Engine.ShieldAIEngine) (request : DetectRequest)
  : list Engine.event * http DetectResponse * option Engine.ShieldAIEngine :=
  match engine with
  | None => ([], HTTPError 500, None)
  | Some current =>
      let engine :=
        if request_use_llm request && negb (Engine.use_llm current)
        then ShieldAIEngine_init env true default_llm_model default_ollama_url
        else current in
      let '(events, outcome) :=
        Engine.detect str_upper engine (request_text request) (u8 "en") in
      match outcome with
      | Ok result =>
          (events,
           Respond
             {| original_text := Engine.original_text result;
                masked_text := Engine.masked_text result;
                detections := item_of <$> Engine.detections result;
                detection_count := len (Engine.detections result) |},
           Some engine)
      | Raise _ => (events, HTTPError 500, Some engine)
      end
  end.
End Handlers.

(** [POST /config]: the global engine after the request. *)
Definition configure (env : Environment) (request : ConfigRequest)
  : option Engine.ShieldAIEngine :=
  Some (ShieldAIEngine_init env (config_use_llm request)
          (config_llm_model request) (config_ollama_url request)).

End Server.

(* ===================================================================== *)
(** * Vocabulary of the properties                                        *)
(* ===================================================================== *)

Import Py.
Import Engine.

(** A list is ordered by an integer rank. *)
Definition ranked {A} (rank : A -> Z) : list A -> Prop :=
  StronglySorted (fun x y => rank x <= rank y).

(** Two half-open intervals share no position. *)
Definition disjoint (a b : Detection) : Prop :=
  end_ a <= start b \/ end_ b <= start a.

(** Any two entries at distinct positions of the list are disjoint. *)
Definition pairwise_disjoint (l : list Detection) : Prop :=
  forall (i j : nat) (a b : Detection),
    i <> j -> l !! i = Some a -> l !! j = Some b -> disjoint a b.

(** The invariant of a span candidate: [0 <= start < end <= len(text)]. *)
Definition valid_span (text : pystr) (d : Detection) : Prop :=
  0 <= start d /\ start d < end_ d /\ end_ d <= len text.

(** The masked text between positions [lo] and [hi] of [text], for spans
    listed from left to right: the text up to a span, its bracketed
    label in place of the span, and so on after it. *)
Fixpoint layout (text : pystr) (lo hi : Z) (ds : list Detection) : pystr :=
  match ds with
  | [] => slice text lo hi
  | d :: ds' =>
      slice text lo (start d)
        ++ (u8 "[" ++ get_entity_label (entity_type d) ++ u8 "]")
        ++ layout text (end_ d) hi ds'
  end.

(** A span with [0 <= start < end <= bound]. *)
Definition within (bound : Z) (d : Detection) : Prop :=
  0 <= start d /\ start d < end_ d /\ end_ d <= bound.

(** No candidate is listed twice and any two of them are disjoint. *)
Definition separated (l : list Detection) : Prop :=
  NoDup l /\ forall a b, a ∈ l -> b ∈ l -> a <> b -> disjoint a b.

(** Candidates for the examples. *)
Definition candidate (entity_type : string) (start end_ : Z) (score : Q)
    (method : string) : Detection :=
  {| entity_type := u8 entity_type;
     text := [];
     start := start;
     end_ := end_;
     score := score;
     method := u8 method |}.

Definition ex_person : Detection := candidate "PERSON" 0 5 1%Q "regex".
Definition ex_dict : Detection :=
  candidate "DICT_PERSONS" 1 3 0.95%Q "dictionary".
Definition ex_url : Detection := candidate "URL" 3 6 0.5%Q "regex".

(** A dictionary candidate covering [ex_person], and a longer dictionary
    candidate that overlaps the former but only touches [ex_person]. *)
Definition ex_dict_cover : Detection :=
  candidate "DICT_PERSONS" 0 6 0.95%Q "dictionary".
Definition ex_dict_later : Detection :=
  candidate "DICT_COMPANIES" 5 12 0.95%Q "dictionary".

(** [d] fully overlaps [p]. *)
Definition covers (d p : Detection) : Prop :=
  start d <= start p /\ end_ p <= end_ d.

(** Overlap resolution of [detections] keeps every dictionary-sourced
    candidate that fully overlaps a generic-person candidate, and
    discards that person candidate. *)
Definition dictionary_kept_over_person (detections : list Detection)
  : Prop :=
  forall d p,
    d ∈ detections -> p ∈ detections ->
    method d = u8 "dictionary" ->
    entity_type p = u8 "PERSON" -> method p <> u8 "dictionary" ->
    start p < end_ p -> covers d p ->
    d ∈ _remove_overlapping detections /\
    p ∉ _remove_overlapping detections.

Definition ex_inverted : Detection := candidate "URL" 4 2 0.5%Q "regex".
Definition ex_x : Detection := candidate "URL" 0 1 0.5%Q "regex".
Definition ex_z : Detection := candidate "JP_ADDRESS" 4 5 0.6%Q "regex".

#[global] Instance valid_span_dec text d : Decision (valid_span text d).
Proof. unfold valid_span. apply _. Defined.

(** Masking skips the candidates whose bounds are invalid: it gives what
    it gives on the valid candidates alone. *)
Definition skips_invalid_spans (text : pystr) (detections : list Detection)
  : Prop :=
  _mask_text text detections
  = _mask_text text (filter (valid_span text) detections).

(** An instance of [str.upper] for the examples: ASCII letters only. *)
Definition ascii_upper (s : pystr) : pystr :=
  (fun c => if (97 <=? c)%N && (c <=? 122)%N then (c - 32)%N else c) <$> s.

(** An engine without LLM whose analyzer reports a generic person at
    (0, 5) and an e-mail address at (3, 8). *)
Definition ex_analyzer (text language : pystr)
  : list Presidio.RecognizerResult :=
  [ {| Presidio.entity_type := u8 "PERSON"; Presidio.start := 0;
       Presidio.end_ := 5; Presidio.score := 0.85%Q |};
    {| Presidio.entity_type := u8 "EMAIL_ADDRESS"; Presidio.start := 3;
       Presidio.end_ := 8; Presidio.score := 1%Q |} ].

Definition ex_engine : ShieldAIEngine :=
  {| use_llm := false;
     min_text_length_for_llm := 50;
     analyzer := ex_analyzer;
     dictionary_entries := [];
     llm_detector := None |}.

(** An engine with LLM, nothing found by the first two stages, and an
    Ollama service answering with two pairs, the second absent from the
    text. *)
Definition ex_llm : LLM.LLMDetector :=
  {| LLM.model := u8 "gemma2:9b";
     LLM.base_url := u8 "http://localhost:11434";
     LLM.OLLAMA_AVAILABLE := true;
     LLM.client_list := Ok ();
     LLM.client_chat_json := fun _ _ =>
       Ok (LLM.JDict [(u8 "detected", LLM.JList [
             LLM.JDict [(u8 "type", LLM.JStr (u8 "個人名"));
                        (u8 "value", LLM.JStr (u8 "田中"))];
             LLM.JDict [(u8 "type", LLM.JStr (u8 "会社名"));
                        (u8 "value", LLM.JStr (u8 "ABC商事"))] ])]) |}.

Definition ex_llm_engine : ShieldAIEngine :=
  {| use_llm := true;
     min_text_length_for_llm := 5;
     analyzer := fun _ _ => [];
     dictionary_entries := [];
     llm_detector := Some ex_llm |}.

Definition ex_llm_text : pystr := u8 "本日は田中と面談、田中は不在".

(** The engine with another dictionary. *)
Definition with_entries (self : ShieldAIEngine)
    (entries : list Dictionary.DictionaryEntry) : ShieldAIEngine :=
  {| use_llm := use_llm self;
     min_text_length_for_llm := min_text_length_for_llm self;
     analyzer := analyzer self;
     dictionary_entries := entries;
     llm_detector := llm_detector self |}.

(** Two dictionary entries that differ at most in their label. *)
Definition same_up_to_label (e1 e2 : Dictionary.DictionaryEntry) : Prop :=
  Dictionary.value e1 = Dictionary.value e2 /\
  Dictionary.category e1 = Dictionary.category e2.

Definition ex_entries_a : list Dictionary.DictionaryEntry :=
  [ {| Dictionary.value := u8 "Apollo"; Dictionary.label := u8 "案件";
       Dictionary.category := u8 "projects" |} ].
Definition ex_entries_b : list Dictionary.DictionaryEntry :=
  [ {| Dictionary.value := u8 "Apollo"; Dictionary.label := u8 "SECRET";
       Dictionary.category := u8 "projects" |} ].

(** [value] occurs in [text] at offset [i]. *)
Definition occurs_at (text value : pystr) (i : Z) : Prop :=
  0 <= i /\ value `prefix_of` drop (Z.to_nat i) text.

(** The answer of the service that lists the given (type, value) pairs. *)
Definition pairs_response (pairs : list (pystr * pystr)) : LLM.json :=
  LLM.JDict [(u8 "detected",
    LLM.JList ((fun p : pystr * pystr =>
                  LLM.JDict [(u8 "type", LLM.JStr p.1);
                             (u8 "value", LLM.JStr p.2)]) <$> pairs))].

(** The detection for a pair whose value occurs in the text. *)
Definition located (text : pystr) (p : pystr * pystr) : LLM.LLMDetection :=
  {| LLM.entity_type := default (u8 "CONFIDENTIAL") (LLM.mapping !! p.1);
     LLM.text := p.2;
     LLM.start := find text p.2;
     LLM.end_ := find text p.2 + len p.2;
     LLM.score := 0.75%Q |}.

(** A honorific match of the pattern matcher on a deny-listed phrase,
    next to one on a name. *)
Definition ex_honorific_text : pystr := u8 "お客様と田中様".
Definition ex_super_analyze (text : pystr) : list Presidio.RecognizerResult :=
  [ {| Presidio.entity_type := u8 "JP_PERSON_NAME"; Presidio.start := 0;
       Presidio.end_ := 3; Presidio.score := 0.6%Q |};
    {| Presidio.entity_type := u8 "JP_PERSON_NAME"; Presidio.start := 4;
       Presidio.end_ := 7; Presidio.score := 0.6%Q |} ].

(** The comparison [_remove_overlapping] sorts by. *)
Definition by_priority (a b : Detection) : bool :=
  priority_lt (get_priority a) (get_priority b).

(** An item of the answer on which the loop of [LLMDetector.detect]
    raises: not an object; or its value is a true number, boolean, list
    or object; or its value occurs in the text and its type is a list or
    an object. *)
Definition malformed_item (text : pystr) (item : LLM.json) : Prop :=
  match item with
  | LLM.JDict kv =>
      match LLM.assoc kv (u8 "value") with
      | Some (LLM.JStr v) =>
          v <> [] /\ find text v <> -1 /\
          match LLM.assoc kv (u8 "type") with
          | Some (LLM.JList _ | LLM.JDict _) => True
          | _ => False
          end
      | Some value => LLM.truthy value = true
      | None => False
      end
  | _ => True
  end.

(** A candidate that keeps the invariant of the data model: a valid
    span whose matched text is [text[start:end]]. *)
Definition well_formed (text : pystr) (d : Detection) : Prop :=
  valid_span text d /\ Engine.text d = slice text (start d) (end_ d).

(** The values of the entries, in order. *)
Definition values (entries : list Dictionary.DictionaryEntry) : list pystr :=
  Dictionary.value <$> entries.

(** The four groups of a dictionary file. *)
Definition known_categories : list pystr :=
  [u8 "companies"; u8 "projects"; u8 "persons"; u8 "custom"].

(** The group an entry is filed under. *)
Definition stored_category (category : pystr) : pystr :=
  if bool_decide (category ∈ known_categories) then category else u8 "custom".

Definition with_category (category : pystr)
    (entry : Dictionary.DictionaryEntry) : Dictionary.DictionaryEntry :=
  {| Dictionary.value := Dictionary.value entry;
     Dictionary.label := Dictionary.label entry;
     Dictionary.category := category |}.

(** The entries filed under a group, in their order. *)
Definition filed_under (category : pystr)
    (entries : list Dictionary.DictionaryEntry)
  : list Dictionary.DictionaryEntry :=
  filter (fun e => stored_category (Dictionary.category e) = category) entries.

(** The entries as a file gives them back: group after group. *)
Definition regroup (entries : list Dictionary.DictionaryEntry)
  : list Dictionary.DictionaryEntry :=
  known_categories ≫=
    (fun k => with_category k <$> filed_under k entries).

(** What one entry adds to the group [k] in [to_dict]. *)
Definition selected (k : pystr) (e : Dictionary.DictionaryEntry)
  : list DictionaryStore.Item :=
  if bool_decide (stored_category (Dictionary.category e) = k)
  then [DictionaryStore.item_of e] else [].

(** An entry that a row of the CSV accounts for: its value is the
    stripped second field, not empty, and its category is the one the
    stripped first field maps to. *)
Definition from_row (str_strip : pystr -> pystr) (rows : list (list pystr))
    (e : Dictionary.DictionaryEntry) : Prop :=
  exists r0 r1 more,
    r0 :: r1 :: more ∈ rows /\
    Dictionary.value e = str_strip r1 /\
    Dictionary.value e <> [] /\
    Dictionary.category e
    = default (u8 "custom") (DictionaryStore.category_map !! str_strip r0).

(** The engine [POST /detect] runs on: a fresh LLM engine when the
    request asks for the LLM and the current engine has it off. *)
Definition switched (env : Server.Environment) (current : ShieldAIEngine)
    (request : Server.DetectRequest) : ShieldAIEngine :=
  if Server.request_use_llm request && negb (use_llm current)
  then Server.ShieldAIEngine_init env true Server.default_llm_model
         Server.default_ollama_url
  else current.

(** Examples for the dictionary matcher and store. *)
Definition ex_dict_text : pystr := u8 "Apollo and Apollo".

Definition ex_dict_detection : Dictionary.DictionaryDetection :=
  {| Dictionary.entity_type := u8 "DICT_PROJECTS";
     Dictionary.text := u8 "Apollo";
     Dictionary.start := 11;
     Dictionary.end_ := 17;
     Dictionary.score := 0.95%Q;
     Dictionary.label_ := u8 "案件" |}.

Definition ex_empty_entry : Dictionary.DictionaryEntry :=
  {| Dictionary.value := []; Dictionary.label := u8 "機密情報";
     Dictionary.category := u8 "custom" |}.

Definition ex_store : DictionaryStore.Dictionary :=
  {| DictionaryStore.version := u8 "1.0";
     DictionaryStore.updated_at := u8 "2025-01-01T00:00:00";
     DictionaryStore.entries := ex_entries_a |}.

Definition ex_manager : DictionaryStore.DictionaryManager :=
  {| DictionaryStore.custom_path := DictionaryStore.Missing;
     DictionaryStore._dictionary := None |}.

Definition ex_broken_manager : DictionaryStore.DictionaryManager :=
  {| DictionaryStore.custom_path := DictionaryStore.Unreadable;
     DictionaryStore._dictionary := None |}.

Definition ex_broken_document : DictionaryStore.Document :=
  {| DictionaryStore.doc_version := Some (u8 "1.0");
     DictionaryStore.doc_updated_at := None;
     DictionaryStore.doc_entries :=
       Some [(u8 "companies",
              [ {| DictionaryStore.item_value := None;
                   DictionaryStore.item_label := Some (u8 "会社名") |} ])] |}.

Definition ex_rows : list (list pystr) :=
  [ [u8 "種別"; u8 "値"; u8 "ラベル"];
    [u8 "会社名"; u8 "株式会社ABC"; u8 "会社名"];
    [u8 "案件"] ].

Definition ex_now (i : nat) : pystr := u8 "2025-01-02T00:00:00".

(** An answer of the model with a well-formed item and a number. *)
Definition ex_bad_answer : list (pystr * LLM.json) :=
  [(u8 "detected", LLM.JList [
      LLM.JDict [(u8 "type", LLM.JStr (u8 "個人名"));
                 (u8 "value", LLM.JStr (u8 "田中"))];
      LLM.JNum 5 ])].

Definition ex_bad_llm : LLM.LLMDetector :=
  {| LLM.model := u8 "gemma2:9b";
     LLM.base_url := u8 "http://localhost:11434";
     LLM.OLLAMA_AVAILABLE := true;
     LLM.client_list := Ok ();
     LLM.client_chat_json := fun _ _ => Ok (LLM.JDict ex_bad_answer) |}.

(** Examples for the request handlers. *)
Definition ex_env : Server.Environment :=
  {| Server.env_analyzer := fun _ _ => [];
     Server.env_custom_json := DictionaryStore.Missing;
     Server.env_ollama_available := true;
     Server.env_client_list := fun _ => Ok ();
     Server.env_client_chat_json := fun _ _ _ => Ok (LLM.JDict []) |}.

Definition ex_config : Server.ConfigRequest :=
  {| Server.config_use_llm := false;
     Server.config_llm_model := u8 "llama3";
     Server.config_ollama_url := u8 "http://10.0.0.5:11434" |}.

Definition ex_request_llm : Server.DetectRequest :=
  {| Server.request_text := ex_llm_text; Server.request_use_llm := true |}.

Definition ex_request_plain : Server.DetectRequest :=
  {| Server.request_text := ex_llm_text; Server.request_use_llm := false |}.

(* ===================================================================== *)
(** * Properties                                                          *)
(* ===================================================================== *)

(** ** Python built-ins *)

Lemma len_nonneg {A} (s : list A) : 0 <= len s.
Proof. unfold len. lia. Qed.

Lemma len_app {A} (s t : list A) : len (s ++ t) = len s + len t.
Proof. unfold len. rewrite length_app. lia. Qed.

Lemma adjust_index_range n i : 0 <= n -> 0 <= adjust_index n i <= n.
Proof. unfold adjust_index. intros. repeat case_match; lia. Qed.

Lemma adjust_index_in_range n i : 0 <= i <= n -> adjust_index n i = i.
Proof. unfold adjust_index. intros. repeat case_match; lia. Qed.

Lemma startswith_prefix s p : startswith s p = true <-> p `prefix_of` s.
Proof.
  revert s. induction p as [|c p IH]; intros s; simpl.
  - split; [intros _; apply prefix_nil | done].
  - destruct s as [|c' s].
    + split; [done | intros H; by apply prefix_nil_inv in H].
    + rewrite andb_true_iff, N.eqb_eq, IH. split.
      * intros [-> H]. by apply prefix_cons.
      * intros H. split; [by apply prefix_cons_inv_1 in H
                         | by apply prefix_cons_inv_2 in H].
Qed.

(** [sorted] rearranges its input. *)
Lemma insert_sorted_perm {A} (lt : A -> A -> bool) x l :
  insert_sorted lt x l ≡ₚ x :: l.
Proof.
  induction l as [|y l IH]; simpl; [done|].
  destruct (lt y x); [|done].
  rewrite IH. apply Permutation_swap.
Qed.

Lemma sorted_perm {A} (lt : A -> A -> bool) l : sorted lt l ≡ₚ l.
Proof.
  induction l as [|x l IH]; simpl; [done|].
  by rewrite insert_sorted_perm, IH.
Qed.

(** [sorted] orders by any integer rank the comparison respects. *)
Section SortedRank.
Context {A : Type} (lt : A -> A -> bool) (rank : A -> Z).
Hypothesis lt_rank : forall x y, lt x y = true -> rank x <= rank y.
Hypothesis nlt_rank : forall x y, lt x y = false -> rank y <= rank x.

Lemma insert_sorted_ranked x l :
  ranked rank l -> ranked rank (insert_sorted lt x l).
Proof.
  induction 1 as [|y l Hl IH Hy]; simpl.
  - repeat constructor.
  - destruct (lt y x) eqn:E.
    + constructor; [done|].
      rewrite insert_sorted_perm. constructor; [by apply lt_rank | done].
    + apply nlt_rank in E.
      constructor; [by constructor|].
      constructor; [done|].
      eapply Forall_impl; [exact Hy|]. simpl. intros; lia.
Qed.

Lemma sorted_ranked l : ranked rank (sorted lt l).
Proof.
  induction l as [|x l IH]; simpl; [constructor|].
  by apply insert_sorted_ranked.
Qed.
End SortedRank.

(** ** Overlap resolution *)

Lemma overlaps_sym a b : overlaps a b = overlaps b a.
Proof.
  unfold overlaps. rewrite !Z.geb_leb.
  destruct (end_ a <=? start b), (end_ b <=? start a); done.
Qed.

Lemma overlaps_false a b : overlaps a b = false <-> disjoint a b.
Proof.
  unfold overlaps, disjoint.
  rewrite negb_false_iff, orb_true_iff, Z.leb_le, Z.geb_le. tauto.
Qed.

Lemma overlaps_true a b : overlaps a b = true <-> ~ disjoint a b.
Proof.
  rewrite <- overlaps_false. destruct (overlaps a b); split; congruence.
Qed.

Lemma disjoint_sym a b : disjoint a b -> disjoint b a.
Proof. unfold disjoint. tauto. Qed.

Lemma should_add_true det result :
  should_add det result = true <-> Forall (fun a => disjoint a det) result.
Proof.
  unfold should_add. rewrite negb_true_iff, Forall_forall.
  split.
  - intros H a Ha. apply disjoint_sym, overlaps_false.
    destruct (overlaps det a) eqn:E; [|done].
    assert (existsb (overlaps det) result = true) as H'; [|congruence].
    apply existsb_exists. exists a. by rewrite <- list_elem_of_In.
  - intros H. destruct (existsb (overlaps det) result) eqn:E; [|done].
    apply existsb_exists in E as (a & Ha & Hov).
    rewrite <- list_elem_of_In in Ha.
    apply overlaps_true in Hov. destruct Hov. by apply disjoint_sym, H.
Qed.

Lemma should_add_false det result :
  should_add det result = false <->
  exists a, a ∈ result /\ overlaps det a = true.
Proof.
  unfold should_add. rewrite negb_false_iff, existsb_exists.
  by setoid_rewrite list_elem_of_In.
Qed.

(** Appending a detection disjoint from all the others keeps every
    ordered pair disjoint. *)
Lemma pairs_disjoint_snoc result det :
  StronglySorted disjoint result ->
  Forall (fun a => disjoint a det) result ->
  StronglySorted disjoint (result ++ [det]).
Proof.
  induction 1 as [|a l Hl IH Ha]; intros Hdet; simpl.
  - repeat constructor.
  - apply Forall_cons in Hdet as [Had Hdet].
    constructor; [by apply IH|].
    apply Forall_app. split; [done | by constructor].
Qed.

Lemma accept_pairs_disjoint result det :
  StronglySorted disjoint result ->
  StronglySorted disjoint (accept result det).
Proof.
  intros H. unfold accept. destruct (should_add det result) eqn:E; [|done].
  apply pairs_disjoint_snoc; [done | by apply should_add_true].
Qed.

Lemma fold_accept_pairs_disjoint l result :
  StronglySorted disjoint result ->
  StronglySorted disjoint (fold_left accept l result).
Proof.
  revert result. induction l as [|d l IH]; intros result H; simpl; [done|].
  by apply IH, accept_pairs_disjoint.
Qed.

Lemma pairs_disjoint_lookup l :
  StronglySorted disjoint l -> pairwise_disjoint l.
Proof.
  intros H.
  assert (forall i j a b, (i < j)%nat ->
            l !! i = Some a -> l !! j = Some b -> disjoint a b) as Hlt.
  { induction H as [|x l Hl IH Hx]; intros i j a b Hij Hi Hj.
    - by rewrite lookup_nil in Hi.
    - destruct j as [|j]; [lia|]. simpl in Hj. destruct i as [|i].
      + simpl in Hi. injection Hi as ->.
        rewrite Forall_forall in Hx. apply Hx.
        by eapply list_elem_of_lookup_2.
      + simpl in Hi. apply (IH i j); [lia|done..]. }
  intros i j a b Hij Hi Hj.
  destruct (decide (i < j)%nat).
  - by apply (Hlt i j).
  - apply disjoint_sym, (Hlt j i); [lia|done..].
Qed.

Lemma remove_overlapping_pairs detections :
  pairwise_disjoint (_remove_overlapping detections).
Proof.
  apply pairs_disjoint_lookup. unfold _remove_overlapping.
  destruct detections as [|d ds]; [constructor|].
  apply fold_accept_pairs_disjoint. constructor.
Qed.

(** C1. For every list of span candidates, any two candidates at
    distinct positions of the output of [_remove_overlapping] have
    disjoint half-open intervals: [a.end <= b.start] or
    [b.end <= a.start]. *)
Theorem remove_overlapping_pairwise_disjoint
    (detections : list Detection) (i j : nat) (a b : Detection) :
  i <> j ->
  _remove_overlapping detections !! i = Some a ->
  _remove_overlapping detections !! j = Some b ->
  end_ a <= start b \/ end_ b <= start a.
Proof. apply remove_overlapping_pairs. Qed.

(** What [_remove_overlapping] returns was in its input, and what the
    greedy walk has accepted stays accepted. *)
Lemma accept_subset result det x :
  x ∈ accept result det -> x ∈ result \/ x = det.
Proof.
  unfold accept. destruct (should_add det result); [|by left].
  rewrite elem_of_app, list_elem_of_singleton. tauto.
Qed.

Lemma accept_keeps result det x : x ∈ result -> x ∈ accept result det.
Proof.
  unfold accept. destruct (should_add det result); [|done].
  intros. apply elem_of_app. by left.
Qed.

Lemma fold_accept_subset l result x :
  x ∈ fold_left accept l result -> x ∈ result \/ x ∈ l.
Proof.
  revert result. induction l as [|d l IH]; intros result; simpl; [by left|].
  intros H. apply IH in H as [H|H].
  - apply accept_subset in H as [H| ->]; [by left | right; left].
  - right. by right.
Qed.

Lemma fold_accept_keeps l result x :
  x ∈ result -> x ∈ fold_left accept l result.
Proof.
  revert result. induction l as [|d l IH]; intros result H; simpl; [done|].
  by apply IH, accept_keeps.
Qed.

Lemma remove_overlapping_subset detections x :
  x ∈ _remove_overlapping detections -> x ∈ detections.
Proof.
  unfold _remove_overlapping. destruct detections as [|d ds]; [done|].
  intros H. apply fold_accept_subset in H as [H|H].
  - by apply elem_of_nil in H.
  - by rewrite sorted_perm in H.
Qed.

(** A candidate is accepted when it meets no overlapping candidate
    other than itself among those walked before it. *)
Lemma fold_accept_elem l1 d l2 result :
  (forall c, c ∈ result ++ l1 -> overlaps d c = true -> c = d) ->
  d ∈ fold_left accept (l1 ++ d :: l2) result.
Proof.
  intros H. rewrite fold_left_app. simpl. apply fold_accept_keeps.
  unfold accept. destruct (should_add d _) eqn:E.
  - apply elem_of_app. right. by left.
  - apply should_add_false in E as (a & Ha & Hov).
    rewrite <- (H a); [done| |done].
    apply fold_accept_subset in Ha. by apply elem_of_app.
Qed.

(** The method rank. *)
Lemma method_priority_range d : 0 <= method_priority d <= 3.
Proof. unfold method_priority. repeat case_match; lia. Qed.

Lemma method_priority_dictionary d :
  method_priority d = 0 <-> method d = u8 "dictionary".
Proof.
  unfold method_priority. case_bool_decide as Hm.
  - done.
  - split; [|done]. repeat case_match; lia.
Qed.

Lemma method_priority_person d :
  method d <> u8 "dictionary" -> entity_type d = u8 "PERSON" ->
  method_priority d = 3.
Proof.
  intros Hm Ht. unfold method_priority.
  rewrite bool_decide_eq_false_2 by done. by rewrite Ht.
Qed.

Lemma priority_lt_rank x y :
  priority_lt (get_priority x) (get_priority y) = true ->
  method_priority x <= method_priority y.
Proof.
  unfold priority_lt, get_priority.
  destruct (Z.eqb_spec (method_priority x) (method_priority y)); simpl.
  - lia.
  - intros H%Z.ltb_lt. lia.
Qed.

Lemma priority_nlt_rank x y :
  priority_lt (get_priority x) (get_priority y) = false ->
  method_priority y <= method_priority x.
Proof.
  unfold priority_lt, get_priority.
  destruct (Z.eqb_spec (method_priority x) (method_priority y)); simpl.
  - lia.
  - intros H%Z.ltb_ge. lia.
Qed.

(** A lower method rank sorts first, whatever the lengths and scores. *)
Lemma priority_lt_by_rank x y :
  method_priority x < method_priority y ->
  priority_lt (get_priority x) (get_priority y) = true /\
  priority_lt (get_priority y) (get_priority x) = false.
Proof.
  intros H. unfold priority_lt, get_priority.
  destruct (Z.eqb_spec (method_priority x) (method_priority y)); [lia|].
  destruct (Z.eqb_spec (method_priority y) (method_priority x)); [lia|].
  simpl. split; [apply Z.ltb_lt | apply Z.ltb_ge]; lia.
Qed.


(** Of two overlapping candidates the one that sorts first is the only
    one kept, in whichever order they were detected. *)
Lemma remove_overlapping_pair x y :
  priority_lt (get_priority x) (get_priority y) = true ->
  priority_lt (get_priority y) (get_priority x) = false ->
  overlaps y x = true ->
  _remove_overlapping [x; y] = [x] /\ _remove_overlapping [y; x] = [x].
Proof.
  intros Hxy Hyx Hov. unfold _remove_overlapping.
  cbn [sorted insert_sorted]. rewrite Hxy, Hyx.
  cbn [fold_left]. unfold accept, should_add. cbn [existsb negb app].
  by rewrite Hov.
Qed.

Lemma sorted_by_priority_ranked detections :
  ranked method_priority
    (sorted (fun a b => priority_lt (get_priority a) (get_priority b))
            detections).
Proof.
  apply sorted_ranked; [apply priority_lt_rank | apply priority_nlt_rank].
Qed.

(** C3, as the code has it. A dictionary-sourced candidate [d]
    overlapping a generic-person candidate [p] (entity type PERSON, found
    by another method): whatever the two scores, overlap resolution of
    the two keeps [d] alone, in either detection order; and in any
    candidate list where no other dictionary candidate overlaps [d], [d]
    is kept and [p] discarded. *)
Theorem dictionary_beats_generic_person (d p : Detection) :
  method d = u8 "dictionary" ->
  entity_type p = u8 "PERSON" ->
  method p <> u8 "dictionary" ->
  overlaps d p = true ->
  _remove_overlapping [d; p] = [d] /\
  _remove_overlapping [p; d] = [d] /\
  forall detections : list Detection,
    d ∈ detections -> p ∈ detections ->
    (forall c, c ∈ detections -> method c = u8 "dictionary" ->
               overlaps c d = true -> c = d) ->
    d ∈ _remove_overlapping detections /\
    p ∉ _remove_overlapping detections.
Proof.
  intros Hd Hp Hpm Hov.
  assert (method_priority d = 0) as Hd0 by by apply method_priority_dictionary.
  assert (method_priority p = 3) as Hp3 by by apply method_priority_person.
  destruct (priority_lt_by_rank d p) as [Hdp Hpd]; [lia|].
  rewrite overlaps_sym in Hov.
  destruct (remove_overlapping_pair d p Hdp Hpd Hov) as [H1 H2].
  split; [done|]. split; [done|].
  intros detections Hin Hpin Hothers.
  assert (d ∈ _remove_overlapping detections) as Hkept.
  { unfold _remove_overlapping.
    destruct detections as [|d0 ds]; [by apply elem_of_nil in Hin|].
    pose proof (sorted_by_priority_ranked (d0 :: ds)) as Hsorted.
    pose proof (sorted_perm
      (fun a b => priority_lt (get_priority a) (get_priority b))
      (d0 :: ds)) as Hperm.
    rewrite <- Hperm in Hin.
    apply list_elem_of_split in Hin as (l1 & l2 & Hsplit).
    rewrite Hsplit in Hsorted |- *.
    apply fold_accept_elem. simpl. intros c Hc Hcov.
    apply Hothers.
    - rewrite <- Hperm, Hsplit. apply elem_of_app. by left.
    - apply method_priority_dictionary.
      pose proof (method_priority_range c).
      assert (method_priority c <= method_priority d); [|lia].
      eapply (StronglySorted_app_1_elem_of _ _ _ c d Hsorted);
        [done | by left].
    - by rewrite overlaps_sym. }
  split; [done|].
  intros Hpkept.
  apply list_elem_of_lookup in Hkept as [i Hi].
  apply list_elem_of_lookup in Hpkept as [j Hj].
  assert (i <> j) as Hij.
  { intros ->. rewrite Hi in Hj. injection Hj as ->. done. }
  pose proof (remove_overlapping_pairs _ _ _ _ _ Hij Hi Hj) as Hdis.
  apply overlaps_true in Hov. by apply Hov, disjoint_sym.
Qed.

(** C3 as stated fails: a second, longer dictionary candidate that
    overlaps the covering one is retained first; the covering dictionary
    candidate is then rejected, and the person candidate, which the
    longer one only touches, is kept. *)
Lemma covering_dictionary_candidate_dropped :
  _remove_overlapping [ex_person; ex_dict_cover; ex_dict_later]
  = [ex_dict_later; ex_person] /\
  ~ dictionary_kept_over_person [ex_person; ex_dict_cover; ex_dict_later].
Proof.
  split; [reflexivity|].
  intros H.
  destruct (H ex_dict_cover ex_person) as [Hkept _].
  - apply list_elem_of_further, list_elem_of_here.
  - apply list_elem_of_here.
  - reflexivity.
  - reflexivity.
  - vm_compute. discriminate.
  - vm_compute. reflexivity.
  - unfold covers. vm_compute. split; discriminate.
  - vm_compute in Hkept.
    apply elem_of_cons in Hkept as [Heq|Hkept]; [discriminate|].
    apply list_elem_of_singleton in Hkept. discriminate.
Qed.


Lemma remove_overlapping_pairwise_disjoint_witness :
  end_ ex_dict <= start ex_url \/ end_ ex_url <= start ex_dict.
Proof.
  apply (remove_overlapping_pairwise_disjoint
           [ex_person; ex_dict; ex_url] 0 1 ex_dict ex_url);
    [lia | vm_compute; reflexivity | vm_compute; reflexivity].
Defined.

Lemma dictionary_beats_generic_person_witness :
  _remove_overlapping [ex_dict; ex_person] = [ex_dict] /\
  _remove_overlapping [ex_person; ex_dict] = [ex_dict].
Proof.
  destruct (dictionary_beats_generic_person ex_dict ex_person)
    as (H1 & H2 & _);
    [reflexivity | reflexivity | vm_compute; discriminate | reflexivity |].
  exact (conj H1 H2).
Defined.


(** ** Masking *)

#[local] Arguments u8 : simpl never.
#[local] Arguments get_entity_label : simpl never.

Lemma slice_to_take {A} (s : list A) (i : Z) :
  0 <= i <= len s -> slice_to s i = take (Z.to_nat i) s.
Proof. intros. unfold slice_to. by rewrite adjust_index_in_range. Qed.

Lemma slice_from_drop {A} (s : list A) (i : Z) :
  0 <= i <= len s -> slice_from s i = drop (Z.to_nat i) s.
Proof. intros. unfold slice_from. by rewrite adjust_index_in_range. Qed.

Lemma slice_take_drop {A} (s : list A) (i j : Z) :
  0 <= i <= len s -> 0 <= j <= len s ->
  slice s i j = drop (Z.to_nat i) (take (Z.to_nat j) s).
Proof.
  intros Hi Hj. unfold slice. rewrite !adjust_index_in_range by done.
  rewrite take_drop_commute.
  destruct (decide (i <= j)).
  - f_equal. f_equal. lia.
  - replace (Z.to_nat j - Z.to_nat i)%nat with 0%nat by lia.
    rewrite Nat.add_0_r. rewrite !drop_ge; [done|..];
      rewrite length_take; lia.
Qed.

Lemma slice_full {A} (s : list A) : slice s 0 (len s) = s.
Proof.
  pose proof (len_nonneg s).
  rewrite slice_take_drop by lia.
  simpl. unfold len. rewrite Nat2Z.id. apply firstn_all.
Qed.

Lemma layout_snoc text lo hi ds d :
  layout text lo hi (ds ++ [d]) =
  layout text lo (start d) ds
    ++ (u8 "[" ++ get_entity_label (entity_type d) ++ u8 "]")
    ++ slice text (end_ d) hi.
Proof.
  revert lo. induction ds as [|x ds IH]; intros lo; cbn [layout app]; [done|].
  rewrite IH. by rewrite <- !app_assoc.
Qed.

Lemma fold_splice_descending text S : forall bound tail,
  0 <= bound <= len text ->
  Forall (within bound) S ->
  StronglySorted (fun x y => end_ y <= start x) S ->
  fold_left splice S (take (Z.to_nat bound) text ++ tail) =
  layout text 0 bound (reverse S) ++ tail.
Proof.
  induction S as [|d S IH]; intros bound tail Hb Hval Hsort;
    cbn [fold_left].
  - rewrite reverse_nil. cbn [layout]. rewrite slice_take_drop by lia. done.
  - apply Forall_cons in Hval as [(Hd0 & Hd1 & Hd2) Hval].
    apply StronglySorted_inv in Hsort as [Hsort Hd].
    assert (len (take (Z.to_nat bound) text ++ tail) = bound + len tail) as Hlen.
    { rewrite len_app. unfold len in *. rewrite length_take. lia. }
    pose proof (len_nonneg tail).
    unfold splice at 2.
    rewrite slice_to_take, slice_from_drop by lia.
    rewrite take_app_le by (rewrite length_take; unfold len in *; lia).
    rewrite take_take, Nat.min_l by lia.
    rewrite drop_app_le by (rewrite length_take; unfold len in *; lia).
    rewrite <- slice_take_drop by lia.
    rewrite <- !app_assoc.
    rewrite IH.
    + rewrite reverse_cons, layout_snoc. by rewrite <- !app_assoc.
    + lia.
    + rewrite Forall_forall in Hval, Hd |- *. intros y Hy.
      specialize (Hval y Hy) as (? & ? & ?). specialize (Hd y Hy).
      unfold within. lia.
    + done.
Qed.

Lemma separated_perm l k : l ≡ₚ k -> separated l -> separated k.
Proof.
  intros Hp [Hnd H]. split; [by rewrite <- Hp|].
  intros a b Ha Hb. rewrite <- Hp in Ha, Hb. by apply H.
Qed.

Lemma pairwise_valid_separated text l :
  Forall (valid_span text) l -> pairwise_disjoint l -> separated l.
Proof.
  intros Hval Hpd. split.
  - apply NoDup_alt. intros i j x Hi Hj.
    destruct (decide (i = j)) as [|Hij]; [done|].
    pose proof (Hpd i j x x Hij Hi Hj) as Hdis.
    rewrite Forall_forall in Hval.
    destruct (Hval x) as (? & ? & ?); [by eapply list_elem_of_lookup_2|].
    unfold disjoint in Hdis. lia.
  - intros a b Ha Hb Hab.
    apply list_elem_of_lookup in Ha as [i Hi].
    apply list_elem_of_lookup in Hb as [j Hj].
    apply (Hpd i j); [|done..]. intros ->. congruence.
Qed.

Lemma fold_accept_all l : forall result,
  separated (result ++ l) -> fold_left accept l result = result ++ l.
Proof.
  induction l as [|d l IH]; intros result Hsep; cbn [fold_left].
  - by rewrite app_nil_r.
  - assert (accept result d = result ++ [d]) as ->.
    { unfold accept.
      rewrite (proj2 (should_add_true d result)); [done|].
      destruct Hsep as [Hnd H]. apply Forall_forall. intros a Ha.
      apply H.
      - apply elem_of_app. by left.
      - apply elem_of_app. right. by left.
      - intros ->. apply NoDup_app in Hnd as (_ & Hnd & _).
        apply (Hnd d Ha). by left. }
    rewrite IH; rewrite <- app_assoc; done.
Qed.

Lemma remove_overlapping_separated l :
  separated l ->
  _remove_overlapping l =
  sorted (fun a b => priority_lt (get_priority a) (get_priority b)) l.
Proof.
  intros Hsep. unfold _remove_overlapping. destruct l as [|d l]; [done|].
  rewrite fold_accept_all; [done|]. cbn [app].
  eapply separated_perm; [|exact Hsep]. symmetry. apply sorted_perm.
Qed.

Lemma descending_separated text k :
  ranked (fun d => - start d) k ->
  Forall (valid_span text) k -> separated k ->
  StronglySorted (fun x y => end_ y <= start x) k.
Proof.
  unfold ranked.
  induction 1 as [|x k Hk IH Hx]; intros Hval Hsep; [constructor|].
  apply Forall_cons in Hval as [Hvx Hval].
  destruct Hsep as [Hnd Hdis]. apply NoDup_cons in Hnd as [Hxk Hnd].
  constructor.
  - apply IH; [done|]. split; [done|].
    intros a b Ha Hb. apply Hdis; by right.
  - rewrite Forall_forall in Hx, Hval |- *. intros y Hy.
    specialize (Hx y Hy). destruct (Hval y Hy) as (? & ? & ?).
    destruct Hvx as (? & ? & ?).
    destruct (Hdis x y) as [H'|H']; [by left | by right | |lia|lia].
    intros ->. done.
Qed.

Lemma sorted_by_start_descending text l :
  Forall (valid_span text) l -> separated l ->
  StronglySorted (fun x y => end_ y <= start x)
    (sorted (fun a b => start b <? start a) l).
Proof.
  intros Hval Hsep.
  pose proof (sorted_perm (fun a b => start b <? start a) l) as Hperm.
  apply (descending_separated text).
  - apply sorted_ranked.
    + intros x y H%Z.ltb_lt. lia.
    + intros x y H%Z.ltb_ge. lia.
  - by rewrite Hperm.
  - by apply (separated_perm l).
Qed.

Lemma StronglySorted_reverse {A} (R : A -> A -> Prop) l :
  StronglySorted R l -> StronglySorted (flip R) (reverse l).
Proof.
  induction 1 as [|x l Hl IH Hx]; [rewrite reverse_nil; constructor|].
  rewrite reverse_cons.
  apply StronglySorted_app_2; [|done|repeat constructor].
  intros a b Ha Hb%list_elem_of_singleton. subst b.
  rewrite elem_of_reverse in Ha.
  rewrite Forall_forall in Hx. unfold flip. by apply Hx.
Qed.

(** Whatever valid candidates go in, the masked text is the original
    text with each retained span replaced by its bracketed label. *)
Lemma mask_text_layout_retained text detections :
  Forall (valid_span text) detections ->
  exists ascending,
    ascending ≡ₚ _remove_overlapping detections /\
    StronglySorted (fun a b => end_ a <= start b) ascending /\
    _mask_text text detections = fold_left splice (reverse ascending) text /\
    _mask_text text detections = layout text 0 (len text) ascending.
Proof.
  intros Hval.
  destruct detections as [|d0 ds].
  { exists []. split; [done|]. split; [constructor|].
    cbn [_mask_text layout]. rewrite reverse_nil. cbn [fold_left].
    by rewrite slice_full. }
  set (detections := d0 :: ds) in *.
  set (filtered := _remove_overlapping detections).
  set (desc := sorted (fun a b => start b <? start a) filtered).
  assert (Forall (valid_span text) filtered) as Hfval.
  { rewrite Forall_forall in Hval |- *. intros x Hx.
    by apply Hval, remove_overlapping_subset. }
  assert (separated filtered) as Hsep.
  { apply (pairwise_valid_separated text); [done|].
    apply remove_overlapping_pairs. }
  assert (_mask_text text detections = fold_left splice desc text) as Hmask
    by done.
  assert (StronglySorted (fun x y => end_ y <= start x) desc) as Hdesc
    by by apply (sorted_by_start_descending text).
  assert (desc ≡ₚ filtered) as Hd by apply sorted_perm.
  exists (reverse desc). split; [by rewrite reverse_Permutation|].
  split; [apply (StronglySorted_reverse _ _ Hdesc)|].
  rewrite reverse_involutive. split; [done|].
  rewrite Hmask.
  pose proof (fold_splice_descending text desc (len text) []) as H.
  assert (take (Z.to_nat (len text)) text = text) as Htake
    by (unfold len; rewrite Nat2Z.id; apply firstn_all).
  rewrite Htake, !app_nil_r in H.
  apply H; [pose proof (len_nonneg text); lia| |done].
  rewrite Hd. eapply Forall_impl; [exact Hfval|]. done.
Qed.

(** Given candidates that are already valid and overlap-free, all of
    them are retained. *)
Lemma mask_text_layout text accepted :
  Forall (valid_span text) accepted ->
  pairwise_disjoint accepted ->
  exists ascending,
    ascending ≡ₚ accepted /\
    StronglySorted (fun a b => end_ a <= start b) ascending /\
    _mask_text text accepted = fold_left splice (reverse ascending) text /\
    _mask_text text accepted = layout text 0 (len text) ascending.
Proof.
  intros Hval Hpd.
  destruct (mask_text_layout_retained text accepted Hval)
    as (ascending & Hperm & Hrest).
  exists ascending. split; [|done].
  rewrite Hperm, remove_overlapping_separated.
  - apply sorted_perm.
  - by apply (pairwise_valid_separated text).
Qed.

(** A lone candidate is spliced as it stands, whatever its bounds. *)
Lemma mask_text_single text d :
  _mask_text text [d] =
  slice_to text (start d)
    ++ (u8 "[" ++ get_entity_label (entity_type d) ++ u8 "]")
    ++ slice_from text (end_ d).
Proof. done. Qed.

(** C5. Masking a text with accepted candidates that are valid spans and
    pairwise disjoint: the candidates are spliced in descending start
    order (the reverse of their left-to-right order), and the result is
    the original text with each [text[start:end]] replaced by
    ["[" + label + "]"]; the label is the entry of the entity-label table
    for the entity type, or 機密情報 when the table has none; with no
    candidate the text is returned unchanged; and masking "A12345B" with
    the single span (1, 6) gives "A[" + label + "]B", that is "A[ID]B"
    for the label "ID". *)
Theorem mask_text_replaces_spans (text : pystr) (accepted : list Detection) :
  Forall (valid_span text) accepted ->
  pairwise_disjoint accepted ->
  (exists ascending,
     ascending ≡ₚ accepted /\
     StronglySorted (fun a b => end_ a <= start b) ascending /\
     _mask_text text accepted = fold_left splice (reverse ascending) text /\
     _mask_text text accepted = layout text 0 (len text) ascending) /\
  (forall entity_type,
     (ENTITY_LABELS !! entity_type = None ->
      get_entity_label entity_type = u8 "機密情報") /\
     (forall label, ENTITY_LABELS !! entity_type = Some label ->
      get_entity_label entity_type = label)) /\
  _mask_text text [] = text /\
  (forall d, start d = 1 -> end_ d = 6 ->
     _mask_text (u8 "A12345B") [d] =
     u8 "A[" ++ get_entity_label (entity_type d) ++ u8 "]B").
Proof.
  intros Hval Hpd. split; [by apply mask_text_layout|].
  split.
  { intros ty. unfold get_entity_label.
    split; [by intros ->|]. intros label H. by rewrite H. }
  split; [done|].
  intros d Hs He. rewrite mask_text_single, Hs, He.
  generalize (get_entity_label (entity_type d)). intros label.
  change (slice_to (u8 "A12345B") 1) with [65%N].
  change (slice_from (u8 "A12345B") 6) with [66%N].
  change (u8 "A[") with [65%N; 91%N].
  change (u8 "]B") with [93%N; 66%N].
  change (u8 "[") with [91%N].
  change (u8 "]") with [93%N].
  cbn [app]. by rewrite <- app_assoc.
Qed.

(** ** The context detector *)

Lemma find_from_spec s sub : forall pos,
  (find_from s sub pos = -1 /\ forall k : nat, ~ sub `prefix_of` drop k s) \/
  (exists k : nat,
     find_from s sub pos = pos + Z.of_nat k /\
     sub `prefix_of` drop k s /\
     forall k' : nat, (k' < k)%nat -> ~ sub `prefix_of` drop k' s).
Proof.
  induction s as [|c s IH]; intros pos; cbn [find_from].
  - destruct (startswith [] sub) eqn:E.
    + right. exists 0%nat. apply startswith_prefix in E.
      split; [lia|]. split; [done|]. intros; lia.
    + left. split; [done|]. intros k H. rewrite drop_nil in H.
      apply startswith_prefix in H. congruence.
  - destruct (startswith (c :: s) sub) eqn:E.
    + right. exists 0%nat. apply startswith_prefix in E.
      split; [lia|]. split; [done|]. intros; lia.
    + assert (~ sub `prefix_of` c :: s) as Hno.
      { intros H. apply startswith_prefix in H. congruence. }
      destruct (IH (pos + 1)) as [[Hf Hnone]|(k & Hf & Hk & Hmin)].
      * left. split; [done|]. intros [|k]; [done | apply Hnone].
      * right. exists (S k). split; [lia|]. split; [done|].
        intros [|k'] Hlt; [done|]. apply Hmin. lia.
Qed.

Lemma find_not_found text value :
  find text value = -1 -> forall i, ~ occurs_at text value i.
Proof.
  unfold find. intros H i [Hi Hocc].
  destruct (find_from_spec text value 0) as [[_ Hnone]|(k & Hf & _)].
  - by apply (Hnone (Z.to_nat i)).
  - lia.
Qed.

Lemma find_first_occurrence text value i :
  find text value = i -> i <> -1 ->
  occurs_at text value i /\ forall j, occurs_at text value j -> i <= j.
Proof.
  unfold find. intros H Hi.
  destruct (find_from_spec text value 0) as [[Hf _]|(k & Hf & Hk & Hmin)];
    [congruence|].
  assert (i = Z.of_nat k) as -> by lia. split.
  - split; [lia|]. by rewrite Nat2Z.id.
  - intros j [Hj Hocc].
    destruct (decide (Z.of_nat k <= j)) as [|Hlt]; [done|].
    destruct (Hmin (Z.to_nat j)); [lia | done].
Qed.

Lemma llm_detect_total self text :
  exists ds, LLM.detect self text = Ok ds.
Proof.
  unfold LLM.detect. destruct (negb (LLM.is_available self)); [by eexists|].
  unfold try_except. case_match; by eexists.
Qed.

Lemma detect_item_located text item d :
  LLM.detect_item text item = Ok (Some d) ->
  LLM.text d <> [] /\
  LLM.start d = find text (LLM.text d) /\
  LLM.start d <> -1 /\
  LLM.end_ d = LLM.start d + len (LLM.text d).
Proof.
  unfold LLM.detect_item.
  destruct (LLM.get item (u8 "value") (LLM.JStr [])) as [value|] eqn:Hv;
    [|done].
  cbn [mbind result_bind bind].
  destruct (negb (LLM.truthy value)) eqn:Ht; [done|].
  destruct value as [| | |v| |]; try done.
  destruct (Z.eqb_spec (find text v) (-1)) as [|Hfound]; [done|].
  destruct (LLM.get item (u8 "type") _) as [ty|]; [|done].
  cbn [mbind result_bind bind].
  destruct (LLM._map_type ty) as [entity_type|]; [|done].
  cbn [mbind result_bind bind]. intros [= <-]. cbn.
  split; [|done].
  intros ->. cbn in Ht. done.
Qed.

Lemma detect_loop_located text items : forall acc ds,
  LLM.detect_loop text items acc = Ok ds ->
  forall d, d ∈ ds ->
    d ∈ acc \/ exists item, item ∈ items /\
                            LLM.detect_item text item = Ok (Some d).
Proof.
  induction items as [|item items IH]; intros acc ds; cbn [LLM.detect_loop].
  - intros [= <-] d Hd. by left.
  - destruct (LLM.detect_item text item) as [o|] eqn:Hitem; [|done].
    cbn [mbind result_bind bind]. intros Hloop d Hd.
    destruct (IH _ _ Hloop d Hd) as [Hacc|(item' & Hin & Hit)].
    + destruct o as [x|]; [|by left].
      apply elem_of_app in Hacc as [Hacc|Hx]; [by left|].
      apply list_elem_of_singleton in Hx as ->.
      right. exists item. split; [by left | done].
    + right. exists item'. split; [by right | done].
Qed.

Lemma llm_detect_located self text ds d :
  LLM.detect self text = Ok ds -> d ∈ ds ->
  exists item, LLM.detect_item text item = Ok (Some d).
Proof.
  unfold LLM.detect. destruct (negb (LLM.is_available self)).
  { intros [= <-] Hd. by apply elem_of_nil in Hd. }
  destruct (LLM.client_chat_json _ _ _) as [result|];
    cbn [mbind result_bind bind try_except];
    [|intros [= <-] Hd; by apply elem_of_nil in Hd].
  destruct (LLM.get result _ _) as [detected|];
    cbn [mbind result_bind bind try_except];
    [|intros [= <-] Hd; by apply elem_of_nil in Hd].
  destruct (LLM.iterate detected) as [items|];
    cbn [mbind result_bind bind try_except];
    [|intros [= <-] Hd; by apply elem_of_nil in Hd].
  destruct (LLM.detect_loop text items []) as [ds'|] eqn:Hloop;
    cbn [try_except]; [|intros [= <-] Hd; by apply elem_of_nil in Hd].
  intros [= <-] Hd.
  destruct (detect_loop_located _ _ _ _ Hloop d Hd) as [H|(item & _ & H)].
  - by apply elem_of_nil in H.
  - by exists item.
Qed.

Lemma detect_item_pair text (p : pystr * pystr) :
  LLM.detect_item text
    (LLM.JDict [(u8 "type", LLM.JStr p.1); (u8 "value", LLM.JStr p.2)])
  = Ok (if decide (p.2 <> [] /\ find text p.2 <> -1)
        then Some (located text p) else None).
Proof.
  destruct p as [t v]. unfold LLM.detect_item.
  change (LLM.get _ (u8 "value") _) with (Ok (LLM.JStr v)).
  cbn [mbind result_bind bind LLM.truthy fst snd].
  case_bool_decide as Hv; cbn [negb].
  { rewrite decide_False; [done|]. tauto. }
  destruct (Z.eqb_spec (find text v) (-1)) as [Hf|Hf].
  { rewrite decide_False; [done|]. tauto. }
  rewrite decide_True by done.
  change (LLM.get _ (u8 "type") _) with (Ok (LLM.JStr t)).
  done.
Qed.

Lemma detect_loop_pairs text pairs : forall acc,
  LLM.detect_loop text
    ((fun p : pystr * pystr =>
        LLM.JDict [(u8 "type", LLM.JStr p.1); (u8 "value", LLM.JStr p.2)])
       <$> pairs) acc
  = Ok (acc ++ (located text <$>
                  filter (fun p => p.2 <> [] /\ find text p.2 <> -1) pairs)).
Proof.
  induction pairs as [|p pairs IH]; intros acc.
  - cbn. by rewrite app_nil_r.
  - rewrite fmap_cons. cbn [LLM.detect_loop].
    rewrite detect_item_pair. cbn [mbind result_bind bind].
    rewrite IH, filter_cons.
    destruct (decide (p.2 <> [] /\ find text p.2 <> -1)) as [H|H].
    + rewrite !decide_True by done. by rewrite fmap_cons, <- app_assoc.
    + by rewrite !decide_False by done.
Qed.

(** ** The engine *)

Lemma len_zero {A} (l : list A) : (len l =? 0) = true <-> l = [].
Proof.
  rewrite Z.eqb_eq. unfold len. destruct l; simpl; split; (done || lia).
Qed.

Lemma llm_gate_true self text detections :
  llm_gate self text detections = true <->
  use_llm self = true /\ is_Some (llm_detector self) /\
  detections = [] /\ min_text_length_for_llm self <= len text.
Proof.
  unfold llm_gate.
  rewrite !andb_true_iff, bool_decide_eq_true, len_zero, Z.geb_le. tauto.
Qed.

Lemma detect_events str_upper self text language :
  (detect str_upper self text language).1 =
  if llm_gate self text (stage12 str_upper self text language)
  then [LLMDetect text] else [].
Proof.
  unfold detect. destruct (llm_gate _ _ _) eqn:E; [|done].
  apply llm_gate_true in E as (_ & [llm Hllm] & _).
  by rewrite Hllm.
Qed.

Lemma detect_outcome str_upper self text language :
  exists llm_part,
    (detect str_upper self text language).2 =
    Ok (finish text (stage12 str_upper self text language ++ llm_part)).
Proof.
  unfold detect. destruct (llm_gate _ _ _) eqn:E.
  - apply llm_gate_true in E as (_ & [llm Hllm] & _).
    rewrite Hllm. cbn [snd].
    destruct (llm_detect_total llm text) as [ds ->].
    by exists (of_llm <$> ds).
  - exists []. by rewrite app_nil_r.
Qed.

(** C7. In a run of [detect] the context (LLM) stage is invoked, once
    and on the input text, exactly when the engine is configured to use
    it ([use_llm] set and a detector present), the pattern and dictionary
    stages produced no candidate, and the text is at least
    [min_text_length_for_llm] long; otherwise it is not invoked at all,
    in particular never when a prior candidate exists. *)
Theorem llm_stage_gating (str_upper : pystr -> pystr)
    (self : ShieldAIEngine) (text language : pystr) :
  ((detect str_upper self text language).1 = [LLMDetect text] <->
   use_llm self = true /\ is_Some (llm_detector self) /\
   stage12 str_upper self text language = [] /\
   min_text_length_for_llm self <= len text) /\
  ((detect str_upper self text language).1 = [LLMDetect text] \/
   (detect str_upper self text language).1 = []) /\
  (stage12 str_upper self text language <> [] ->
   (detect str_upper self text language).1 = []).
Proof.
  rewrite detect_events, <- llm_gate_true.
  destruct (llm_gate _ _ _) eqn:E.
  - split; [done|]. split; [by left|].
    apply llm_gate_true in E as (_ & _ & -> & _). done.
  - split; [done|]. split; [by right | done].
Qed.

Lemma detect_outcome_stages str_upper self text language r :
  (detect str_upper self text language).2 = Ok r ->
  exists llm_results,
    r = finish text (stage12 str_upper self text language
                       ++ (of_llm <$> llm_results)) /\
    if llm_gate self text (stage12 str_upper self text language)
    then exists llm,
           llm_detector self = Some llm /\
           LLM.detect llm text = Ok llm_results
    else llm_results = [].
Proof.
  unfold detect. destruct (llm_gate _ _ _) eqn:E.
  - apply llm_gate_true in E as (_ & [llm Hllm] & _).
    rewrite Hllm. cbn [snd].
    destruct (LLM.detect llm text) as [ds|] eqn:Hds;
      cbn [mbind result_bind bind]; [|done].
    intros [= <-]. exists ds. split; [done|]. by exists llm.
  - cbn [snd]. intros [= <-]. exists []. split; [|done].
    by rewrite app_nil_r.
Qed.

(** C2, as the code has it. The [detections] of the result are exactly
    the candidates collected, in collection order: the pattern results,
    then the dictionary results, then the LLM results.  The LLM part is
    what the engine's detector returned on the input text when the LLM
    stage ran, and empty when it did not.  Overlap resolution does not
    filter the list: the candidates it retains (those realised in
    [masked_text]) are among them. *)
Theorem detections_are_all_collected (str_upper : pystr -> pystr)
    (self : ShieldAIEngine) (text language : pystr) (r : DetectionResult) :
  (detect str_upper self text language).2 = Ok r ->
  (exists llm_results,
     detections r =
     (of_presidio text <$> analyzer self text language)
       ++ (of_dictionary <$>
             Dictionary.detect str_upper (dictionary_entries self) text)
       ++ (of_llm <$> llm_results) /\
     if llm_gate self text (stage12 str_upper self text language)
     then exists llm,
            llm_detector self = Some llm /\
            LLM.detect llm text = Ok llm_results
     else llm_results = []) /\
  original_text r = text /\
  masked_text r = _mask_text text (detections r) /\
  (forall d, d ∈ _remove_overlapping (detections r) -> d ∈ detections r).
Proof.
  intros Hr.
  destruct (detect_outcome_stages _ _ _ _ _ Hr) as (llm_results & -> & H).
  cbn [detections finish original_text masked_text].
  split; [|split; [done|split; [done|apply remove_overlapping_subset]]].
  exists llm_results. split; [|done].
  unfold stage12. by rewrite <- app_assoc.
Qed.

(** C2 as stated fails: a reported detection that overlap resolution
    discards. *)
Lemma detect_reports_discarded_candidate :
  exists r d,
    (detect ascii_upper ex_engine (u8 "abcdefgh") (u8 "en")).2 = Ok r /\
    d ∈ detections r /\
    d ∉ _remove_overlapping (detections r).
Proof.
  eexists _, (of_presidio (u8 "abcdefgh")
                {| Presidio.entity_type := u8 "PERSON"; Presidio.start := 0;
                   Presidio.end_ := 5; Presidio.score := 0.85%Q |}).
  split; [reflexivity|]. split.
  - vm_compute. left.
  - vm_compute. intros H. apply list_elem_of_singleton in H. discriminate.
Qed.

(** C6, as the code has it. The engine checks no span bounds.  When all
    candidates are valid spans, the masked text is the original text
    with the retained spans replaced by labels, nothing else touched.  A
    candidate is spliced whatever its bounds, as
    [text[:start] + "[label]" + text[end:]] under Python's slice
    clamping; and [detect] returns a result, it does not raise. *)
Theorem mask_text_without_bounds_check (text : pystr)
    (detections : list Detection) :
  (Forall (valid_span text) detections ->
   exists ascending,
     ascending ≡ₚ _remove_overlapping detections /\
     StronglySorted (fun a b => end_ a <= start b) ascending /\
     _mask_text text detections = layout text 0 (len text) ascending) /\
  (forall d,
     _mask_text text [d] =
     slice_to text (start d)
       ++ (u8 "[" ++ get_entity_label (entity_type d) ++ u8 "]")
       ++ slice_from text (end_ d)) /\
  (forall str_upper self language,
     exists r, (detect str_upper self text language).2 = Ok r).
Proof.
  split.
  { intros Hval.
    destruct (mask_text_layout_retained text detections Hval)
      as (asc & H1 & H2 & _ & H3).
    by exists asc. }
  split; [apply mask_text_single|].
  intros str_upper self language.
  destruct (detect_outcome str_upper self text language) as [llm_part H].
  by eexists.
Qed.

(** C6 as stated fails: an inverted span (4, 2) is not skipped. *)
Lemma inverted_span_not_skipped :
  ~ skips_invalid_spans (u8 "abcdef") [ex_inverted].
Proof. unfold skips_invalid_spans. vm_compute. discriminate. Qed.

(** ** The honorific-name recognizer *)

(** C9. The honorific-name recognizer returns exactly the matches of
    its pattern matcher whose matched text [text[start:end]] is not an
    entry of [DENY_LIST]: no returned match equals a deny-listed
    phrase, and the filter runs inside [analyze], before the results
    leave the recognizer. *)
Theorem honorific_deny_list_filtered
    (super_analyze : pystr -> list Presidio.RecognizerResult)
    (text : pystr) (result : Presidio.RecognizerResult) :
  result ∈ Patterns.analyze super_analyze text <->
  result ∈ super_analyze text /\
  slice text (Presidio.start result) (Presidio.end_ result)
    ∉ Patterns.DENY_LIST.
Proof. unfold Patterns.analyze. rewrite list_elem_of_filter. tauto. Qed.

(** ** Dictionary labels *)

Lemma detect_entry_label_free str_upper text e1 e2 :
  same_up_to_label e1 e2 ->
  of_dictionary <$> Dictionary.detect_entry str_upper text e1 =
  of_dictionary <$> Dictionary.detect_entry str_upper text e2.
Proof.
  intros [Hv Hc]. unfold Dictionary.detect_entry.
  rewrite <- !list_fmap_compose, Hv, Hc. done.
Qed.

Lemma dictionary_detect_label_free str_upper text es1 es2 :
  Forall2 same_up_to_label es1 es2 ->
  of_dictionary <$> Dictionary.detect str_upper es1 text =
  of_dictionary <$> Dictionary.detect str_upper es2 text.
Proof.
  unfold Dictionary.detect.
  induction 1 as [|e1 e2 es1 es2 He Hes IH]; [done|].
  rewrite !bind_cons, !fmap_app, IH.
  by rewrite (detect_entry_label_free _ _ e1 e2).
Qed.

(** C10. Two dictionaries whose entries differ at most in their labels
    give the same run of [detect] on every text, hence the same
    [masked_text]: the label of a dictionary entry never reaches the
    masked output. *)
Theorem masked_text_independent_of_labels (str_upper : pystr -> pystr)
    (self : ShieldAIEngine) (entries1 entries2 : list Dictionary.DictionaryEntry)
    (text language : pystr) :
  Forall2 same_up_to_label entries1 entries2 ->
  detect str_upper (with_entries self entries1) text language =
  detect str_upper (with_entries self entries2) text language /\
  forall r1 r2,
    (detect str_upper (with_entries self entries1) text language).2 = Ok r1 ->
    (detect str_upper (with_entries self entries2) text language).2 = Ok r2 ->
    masked_text r1 = masked_text r2.
Proof.
  intros Hes.
  assert (detect str_upper (with_entries self entries1) text language =
          detect str_upper (with_entries self entries2) text language) as Heq.
  { unfold detect, stage12, llm_gate. cbn [with_entries analyzer
      dictionary_entries use_llm llm_detector min_text_length_for_llm].
    by rewrite (dictionary_detect_label_free _ _ _ _ Hes). }
  split; [done|]. intros r1 r2 H1 H2. rewrite Heq in H1. congruence.
Qed.

(** ** The context detector, end to end *)

Lemma llm_detect_unavailable self text :
  LLM.is_available self = false -> LLM.detect self text = Ok [].
Proof. intros H. unfold LLM.detect. by rewrite H. Qed.

Lemma llm_is_available_false self :
  LLM.is_available self = false <->
  LLM.OLLAMA_AVAILABLE self = false \/ exists e, LLM.client_list self = Raise e.
Proof.
  unfold LLM.is_available.
  destruct (LLM.OLLAMA_AVAILABLE self), (LLM.client_list self) as [u|e];
    cbn [negb]; split; try done; try (by left); try (by right; eexists).
  - intros [|[e' ?]]; done.
Qed.

Lemma get_detected x :
  LLM.get (LLM.JDict [(u8 "detected", x)]) (u8 "detected") (LLM.JList [])
  = Ok x.
Proof. done. Qed.

(** C8. The context detector adapter never raises: it returns a list on
    every text.  When Ollama is unavailable (the import failed or the
    health check raises) or the chat call fails in any way, the list is
    empty.  Every detection it returns has a non-empty value that occurs
    in the text, starts at the first occurrence of the value and ends
    [len(value)] further.  Of the (type, value) pairs of a well-formed
    answer, those whose value is empty or does not occur in the text are
    dropped, the others are returned in order. *)
Theorem llm_detect_never_raises (self : LLM.LLMDetector) (text : pystr) :
  (exists ds, LLM.detect self text = Ok ds) /\
  (LLM.OLLAMA_AVAILABLE self = false \/
   (exists e, LLM.client_list self = Raise e) \/
   (exists e, LLM.client_chat_json self (LLM.model self)
                (LLM.user_message text) = Raise e) ->
   LLM.detect self text = Ok []) /\
  (forall ds d, LLM.detect self text = Ok ds -> d ∈ ds ->
     LLM.text d <> [] /\
     LLM.start d = find text (LLM.text d) /\
     occurs_at text (LLM.text d) (LLM.start d) /\
     (forall j, occurs_at text (LLM.text d) j -> LLM.start d <= j) /\
     LLM.end_ d = LLM.start d + len (LLM.text d)) /\
  (forall value, find text value = -1 <->
                 forall i, ~ occurs_at text value i) /\
  (forall pairs,
     LLM.is_available self = true ->
     LLM.client_chat_json self (LLM.model self) (LLM.user_message text)
     = Ok (pairs_response pairs) ->
     LLM.detect self text =
     Ok (located text <$>
           filter (fun p => p.2 <> [] /\ find text p.2 <> -1) pairs)).
Proof.
  split; [apply llm_detect_total|]. split.
  { intros [H|[H|[e H]]].
    - apply llm_detect_unavailable, llm_is_available_false. by left.
    - apply llm_detect_unavailable, llm_is_available_false. by right.
    - unfold LLM.detect. destruct (negb (LLM.is_available self)); [done|].
      by rewrite H. }
  split.
  { intros ds d Hds Hd.
    destruct (llm_detect_located _ _ _ _ Hds Hd) as [item Hitem].
    apply detect_item_located in Hitem as (Hne & Hstart & Hfound & Hend).
    destruct (find_first_occurrence text (LLM.text d) (LLM.start d))
      as [Hocc Hmin]; done. }
  split.
  { intros value. split; [apply find_not_found|].
    intros Hnone. destruct (decide (find text value = -1)) as [|Hf]; [done|].
    destruct (find_first_occurrence text value _ eq_refl Hf) as [Hocc _].
    by destruct (Hnone _ Hocc). }
  intros pairs Hav Hchat. unfold LLM.detect. rewrite Hav, Hchat.
  cbn [negb mbind result_bind bind]. unfold pairs_response.
  rewrite get_detected.
  cbn [mbind result_bind bind LLM.iterate].
  rewrite (detect_loop_pairs text pairs []). done.
Qed.

Lemma llm_detect_never_raises_witness :
  LLM.detect ex_llm ex_llm_text =
  Ok (located ex_llm_text <$>
        filter (fun p => p.2 <> [] /\ find ex_llm_text p.2 <> -1)
          [(u8 "個人名", u8 "田中"); (u8 "会社名", u8 "ABC商事")]).
Proof.
  apply (llm_detect_never_raises ex_llm ex_llm_text);
    [reflexivity | reflexivity].
Defined.

Lemma mask_text_replaces_spans_witness :
  exists ascending,
    ascending ≡ₚ [ex_z; ex_x] /\
    StronglySorted (fun a b => end_ a <= start b) ascending /\
    _mask_text (u8 "X Y Z") [ex_z; ex_x] =
      fold_left splice (reverse ascending) (u8 "X Y Z") /\
    _mask_text (u8 "X Y Z") [ex_z; ex_x] =
      layout (u8 "X Y Z") 0 (len (u8 "X Y Z")) ascending.
Proof.
  apply (mask_text_replaces_spans (u8 "X Y Z") [ex_z; ex_x]).
  - repeat constructor; vm_compute; congruence.
  - intros [|[|i]] [|[|j]] a b Hij Hi Hj; try done;
      injection Hi as <-; injection Hj as <-; unfold disjoint;
      vm_compute; intuition congruence.
Defined.

Lemma detections_are_all_collected_witness :
  exists r,
    (detect ascii_upper ex_engine (u8 "abcdefgh") (u8 "en")).2 = Ok r /\
    masked_text r = _mask_text (u8 "abcdefgh") (detections r).
Proof.
  eexists. split; [reflexivity|].
  apply (detections_are_all_collected ascii_upper ex_engine
           (u8 "abcdefgh") (u8 "en")).
  reflexivity.
Defined.

Lemma mask_text_without_bounds_check_witness :
  exists ascending,
    ascending ≡ₚ _remove_overlapping [ex_person; ex_dict; ex_url] /\
    StronglySorted (fun a b => end_ a <= start b) ascending /\
    _mask_text (u8 "abcdefgh") [ex_person; ex_dict; ex_url] =
      layout (u8 "abcdefgh") 0 (len (u8 "abcdefgh")) ascending.
Proof.
  apply (mask_text_without_bounds_check (u8 "abcdefgh")
           [ex_person; ex_dict; ex_url]).
  repeat constructor; vm_compute; congruence.
Defined.

Lemma llm_stage_gating_witness :
  (detect ascii_upper ex_llm_engine ex_llm_text (u8 "en")).1
  = [LLMDetect ex_llm_text] /\
  (detect ascii_upper ex_engine (u8 "abcdefgh") (u8 "en")).1 = [].
Proof.
  split.
  - apply (llm_stage_gating ascii_upper ex_llm_engine ex_llm_text (u8 "en")).
    split; [reflexivity|]. split; [by eexists|]. split; [reflexivity|].
    vm_compute. congruence.
  - apply (llm_stage_gating ascii_upper ex_engine (u8 "abcdefgh") (u8 "en")).
    vm_compute. congruence.
Defined.

Lemma honorific_deny_list_filtered_witness :
  Patterns.analyze ex_super_analyze ex_honorific_text =
  [ {| Presidio.entity_type := u8 "JP_PERSON_NAME"; Presidio.start := 4;
       Presidio.end_ := 7; Presidio.score := 0.6%Q |} ] /\
  {| Presidio.entity_type := u8 "JP_PERSON_NAME"; Presidio.start := 0;
     Presidio.end_ := 3; Presidio.score := 0.6%Q |}
    ∉ Patterns.analyze ex_super_analyze ex_honorific_text.
Proof.
  split; [vm_compute; reflexivity|].
  intros H.
  apply (honorific_deny_list_filtered ex_super_analyze ex_honorific_text)
    in H as [_ H].
  apply H. vm_compute. reflexivity.
Defined.

Lemma masked_text_independent_of_labels_witness :
  detect ascii_upper (with_entries ex_engine ex_entries_a)
    (u8 "Project Apollo") (u8 "en") =
  detect ascii_upper (with_entries ex_engine ex_entries_b)
    (u8 "Project Apollo") (u8 "en").
Proof.
  apply (masked_text_independent_of_labels ascii_upper ex_engine
           ex_entries_a ex_entries_b).
  repeat constructor.
Defined.

(** ** The dictionary matcher *)

Lemma prefix_of_drop_length {A} (lit s : list A) (k : nat) :
  (k <= length s)%nat -> lit `prefix_of` drop k s ->
  (k + length lit <= length s)%nat.
Proof. intros Hk H%prefix_length. rewrite length_drop in H. lia. Qed.

Lemma finditer_from_sound lit s : forall pos skip m,
  m ∈ finditer_from lit s pos skip ->
  exists k : nat,
    (skip <= k <= length s)%nat /\ m.1 = pos + Z.of_nat k /\
    m.2 = m.1 + len lit /\ lit `prefix_of` drop k s.
Proof.
  induction s as [|c s IH]; intros pos skip m; cbn [finditer_from].
  - destruct skip; [|by intros ?%elem_of_nil].
    destruct lit; [|by intros ?%elem_of_nil].
    intros ->%list_elem_of_singleton. exists 0%nat. cbn. unfold len. cbn.
    repeat split; try lia; done.
  - destruct skip as [|skip].
    + destruct (startswith (c :: s) lit) eqn:E.
      * intros [->|Hm]%elem_of_cons.
        { exists 0%nat. apply startswith_prefix in E. cbn.
          repeat split; try lia; done. }
        apply IH in Hm as (k & Hk & H1 & H2 & H3).
        exists (S k). cbn [length]. repeat split; try lia; done.
      * intros Hm. apply IH in Hm as (k & Hk & H1 & H2 & H3).
        exists (S k). cbn [length]. repeat split; try lia; done.
    + intros Hm. apply IH in Hm as (k & Hk & H1 & H2 & H3).
      exists (S k). cbn [length]. repeat split; try lia; done.
Qed.

Lemma finditer_from_ascending lit s : forall pos skip,
  StronglySorted (fun m1 m2 : Z * Z => m1.2 <= m2.1 /\ m1.1 < m2.1)
    (finditer_from lit s pos skip).
Proof.
  induction s as [|c s IH]; intros pos skip; cbn [finditer_from].
  - destruct skip, lit; repeat constructor.
  - destruct skip as [|skip]; [|apply IH].
    destruct (startswith (c :: s) lit) eqn:E; [|apply IH].
    constructor; [apply IH|].
    apply Forall_forall. intros m Hm.
    apply finditer_from_sound in Hm as (k & Hk & H1 & _). cbn.
    unfold len. destruct lit; cbn in *; lia.
Qed.

Lemma finditer_from_complete lit s : forall pos skip (k : nat),
  lit <> [] -> (skip <= k)%nat -> lit `prefix_of` drop k s ->
  exists m, m ∈ finditer_from lit s pos skip /\
            m.1 <= pos + Z.of_nat k < m.2.
Proof.
  induction s as [|c s IH]; intros pos skip k Hlit Hk Hocc.
  - rewrite drop_nil in Hocc. by apply prefix_nil_inv in Hocc.
  - assert (0 < length lit)%nat as Hpos
      by (destruct lit; [done | cbn; lia]).
    cbn [finditer_from]. destruct skip as [|skip].
    + destruct (startswith (c :: s) lit) eqn:E.
      * destruct (decide (k < length lit)%nat) as [Hin|Hout].
        { exists (pos, pos + len lit). split; [by left|].
          cbn [fst snd]. unfold len. lia. }
        destruct k as [|k]; [lia|].
        destruct (IH (pos + 1) (pred (length lit)) k) as (m & Hm & Hr);
          [done | lia | done |].
        exists m. split; [by right | lia].
      * destruct k as [|k].
        { rewrite drop_0 in Hocc. apply startswith_prefix in Hocc.
          congruence. }
        destruct (IH (pos + 1) 0%nat k) as (m & Hm & Hr);
          [done | lia | done |].
        exists m. split; [done | lia].
    + destruct k as [|k]; [lia|].
      destruct (IH (pos + 1) skip k) as (m & Hm & Hr); [done | lia | done |].
      exists m. split; [done | lia].
Qed.

Lemma finditer_empty_literal s : forall pos,
  finditer_from [] s pos 0 =
  (fun i : nat => (pos + Z.of_nat i, pos + Z.of_nat i))
    <$> seq 0 (S (length s)).
Proof.
  induction s as [|c s IH]; intros pos.
  - cbn. by rewrite Z.add_0_r.
  - cbn [finditer_from startswith length pred]. rewrite IH.
    change (seq 0 (S (S (length s)))) with (0%nat :: seq 1 (S (length s))).
    rewrite fmap_cons, <- fmap_S_seq, <- list_fmap_compose.
    f_equal; [unfold len; cbn; f_equal; lia|].
    apply list_fmap_ext. intros _ i _. cbn. f_equal; lia.
Qed.

Lemma slice_occurrence (text value : pystr) (k : nat) :
  (k <= length text)%nat -> value `prefix_of` drop k text ->
  slice text (Z.of_nat k) (Z.of_nat k + len value) = value.
Proof.
  intros Hk H. pose proof (prefix_of_drop_length _ _ _ Hk H) as Hlen.
  unfold slice. rewrite !adjust_index_in_range by (unfold len; lia).
  destruct H as [rest H]. rewrite Nat2Z.id, H.
  replace (Z.to_nat (Z.of_nat k + len value) - k)%nat with (length value)
    by (unfold len; lia).
  by rewrite take_app_length.
Qed.
(** An occurrence of a non-empty value lies inside the text. *)
Lemma occurs_at_bounds text value i :
  value <> [] -> occurs_at text value i ->
  0 <= i /\ i < i + len value /\ i + len value <= len text /\
  slice text i (i + len value) = value.
Proof.
  intros Hne [Hi Hocc].
  assert (0 < length value)%nat as Hpos
    by (destruct value; [done | cbn; lia]).
  assert (Z.to_nat i <= length text)%nat as Hk.
  { destruct (decide (Z.to_nat i <= length text)%nat); [done|].
    rewrite drop_ge in Hocc by lia. apply prefix_nil_inv in Hocc. done. }
  pose proof (prefix_of_drop_length _ _ _ Hk Hocc).
  pose proof (slice_occurrence _ _ _ Hk Hocc) as Hs.
  rewrite Z2Nat.id in Hs by done.
  unfold len in *. repeat split; try lia. done.
Qed.

Lemma dictionary_detection_sound (str_upper : pystr -> pystr)
    (entries : list Dictionary.DictionaryEntry) (text : pystr)
    (d : Dictionary.DictionaryDetection) :
  d ∈ Dictionary.detect str_upper entries text ->
  exists entry,
    entry ∈ entries /\
    Dictionary.entity_type d
      = u8 "DICT_" ++ str_upper (Dictionary.category entry) /\
    Dictionary.label_ d = Dictionary.label entry /\
    Dictionary.score d = 0.95%Q /\
    Dictionary.text d = Dictionary.value entry /\
    0 <= Dictionary.start d /\
    Dictionary.end_ d = Dictionary.start d + len (Dictionary.value entry) /\
    Dictionary.end_ d <= len text /\
    slice text (Dictionary.start d) (Dictionary.end_ d)
      = Dictionary.value entry.
Proof.
  unfold Dictionary.detect. intros (entry & Hd & He)%list_elem_of_bind.
  exists entry. split; [done|].
  unfold Dictionary.detect_entry in Hd.
  apply list_elem_of_fmap in Hd as (m & -> & Hm).
  apply finditer_from_sound in Hm as (k & Hk & H1 & H2 & H3).
  cbn [Dictionary.entity_type Dictionary.label_ Dictionary.score
       Dictionary.text Dictionary.start Dictionary.end_].
  pose proof (prefix_of_drop_length _ _ _ (proj2 Hk) H3) as Hlen.
  pose proof (slice_occurrence _ _ _ (proj2 Hk) H3) as Hs.
  rewrite H2, H1, Z.add_0_l.
  repeat split; try done; try (unfold len; lia).
Qed.

(** X1. Every detection of the dictionary matcher is an occurrence of
    the term of some entry: its span lies inside the text, is
    [len(value)] long, [text[start:end]] and the reported text are the
    term itself, and type, label and score are those of the entry
    ("DICT_" + category.upper(), entry.label, 0.95). *)
Theorem dictionary_detections_are_occurrences (str_upper : pystr -> pystr)
    (entries : list Dictionary.DictionaryEntry) (text : pystr)
    (d : Dictionary.DictionaryDetection) :
  d ∈ Dictionary.detect str_upper entries text ->
  exists entry,
    entry ∈ entries /\
    Dictionary.entity_type d
      = u8 "DICT_" ++ str_upper (Dictionary.category entry) /\
    Dictionary.label_ d = Dictionary.label entry /\
    Dictionary.score d = 0.95%Q /\
    Dictionary.text d = Dictionary.value entry /\
    0 <= Dictionary.start d /\
    Dictionary.end_ d = Dictionary.start d + len (Dictionary.value entry) /\
    Dictionary.end_ d <= len text /\
    slice text (Dictionary.start d) (Dictionary.end_ d)
      = Dictionary.value entry.
Proof. apply dictionary_detection_sound. Qed.

(** X2. No occurrence of a non-empty dictionary term is missed: every
    offset at which the term occurs in the text lies inside the span of
    a detection for that term (the occurrence itself, or an earlier one
    it overlaps). *)
Theorem dictionary_detect_covers_occurrences (str_upper : pystr -> pystr)
    (entries : list Dictionary.DictionaryEntry) (text : pystr)
    (entry : Dictionary.DictionaryEntry) (i : Z) :
  entry ∈ entries ->
  Dictionary.value entry <> [] ->
  occurs_at text (Dictionary.value entry) i ->
  exists d,
    d ∈ Dictionary.detect str_upper entries text /\
    Dictionary.text d = Dictionary.value entry /\
    Dictionary.label_ d = Dictionary.label entry /\
    Dictionary.start d <= i < Dictionary.end_ d.
Proof.
  intros He Hne [Hi Hocc].
  destruct (finditer_from_complete (Dictionary.value entry) text 0 0%nat
              (Z.to_nat i)) as (m & Hm & Hr); [done | lia | done |].
  pose proof (finditer_from_sound _ _ _ _ _ Hm) as (k & Hk & H1 & H2 & H3).
  eexists. split.
  - unfold Dictionary.detect. apply list_elem_of_bind. exists entry.
    split; [|done]. unfold Dictionary.detect_entry.
    apply list_elem_of_fmap. exists m. split; [reflexivity|done].
  - cbn [Dictionary.text Dictionary.label_ Dictionary.start Dictionary.end_].
    split; [|split; [done|lia]].
    rewrite H2, H1, Z.add_0_l.
    apply slice_occurrence; [lia | done].
Qed.

Lemma StronglySorted_fmap_image {A B} (f : A -> B) (R : B -> B -> Prop) l :
  StronglySorted (fun x y => R (f x) (f y)) l ->
  StronglySorted R (f <$> l).
Proof.
  induction 1 as [|x l Hl IH Hx]; [constructor|].
  rewrite fmap_cons. constructor; [done|].
  by apply Forall_fmap.
Qed.

(** X3. The detections one dictionary entry contributes are listed
    from left to right and do not overlap one another: each ends where
    the next begins or before. *)
Theorem dictionary_matches_ascending (str_upper : pystr -> pystr)
    (text : pystr) (entry : Dictionary.DictionaryEntry) :
  StronglySorted
    (fun d1 d2 => Dictionary.end_ d1 <= Dictionary.start d2 /\
                  Dictionary.start d1 < Dictionary.start d2)
    (Dictionary.detect_entry str_upper text entry).
Proof.
  unfold Dictionary.detect_entry.
  apply StronglySorted_fmap_image.
  apply (finditer_from_ascending (Dictionary.value entry) text 0 0).
Qed.

(** X4. An entry whose value is the empty string matches at every
    offset: it contributes [len(text) + 1] zero-length detections, at
    0, 1, ..., len(text). *)
Theorem dictionary_empty_value_matches_everywhere
    (str_upper : pystr -> pystr) (text : pystr)
    (entry : Dictionary.DictionaryEntry) :
  Dictionary.value entry = [] ->
  (fun d => (Dictionary.start d, Dictionary.end_ d))
    <$> Dictionary.detect_entry str_upper text entry
  = (fun i : nat => (Z.of_nat i, Z.of_nat i)) <$> seq 0 (S (length text)).
Proof.
  intros Hv. unfold Dictionary.detect_entry, finditer_literal.
  rewrite Hv, finditer_empty_literal, <- !list_fmap_compose.
  apply list_fmap_ext. intros _ i _. cbn. done.
Qed.

(** ** The priority order *)

Lemma priority_lt_false (a b : Z * Z * Q) :
  priority_lt a b = false <->
  b.1.1 < a.1.1 \/
  (a.1.1 = b.1.1 /\
   (b.1.2 < a.1.2 \/ (a.1.2 = b.1.2 /\ (b.2 <= a.2)%Q))).
Proof.
  destruct a as [[m1 l1] s1], b as [[m2 l2] s2]. cbn [priority_lt fst snd].
  destruct (Z.eqb_spec m1 m2) as [->|Hm]; cbn [negb].
  2: { rewrite Z.ltb_ge. lia. }
  destruct (Z.eqb_spec l1 l2) as [->|Hl]; cbn [negb].
  2: { rewrite Z.ltb_ge. lia. }
  rewrite Qge_alt.
  destruct (s1 ?= s2)%Q; split; try done; try (intros _; right; split; [done|]; right; split; done);
    intros [?|[_ [?|[_ ?]]]]; try lia; done.
Qed.

Lemma priority_lt_asym a b :
  priority_lt a b = true -> priority_lt b a = false.
Proof.
  destruct a as [[m1 l1] s1], b as [[m2 l2] s2]. cbn [priority_lt].
  destruct (Z.eqb_spec m1 m2) as [->|Hm]; cbn [negb].
  2: { destruct (Z.eqb_spec m2 m1); [lia|]. cbn [negb].
       rewrite Z.ltb_lt, Z.ltb_ge. lia. }
  rewrite Z.eqb_refl. cbn [negb].
  destruct (Z.eqb_spec l1 l2) as [->|Hl]; cbn [negb].
  2: { destruct (Z.eqb_spec l2 l1); [lia|]. cbn [negb].
       rewrite Z.ltb_lt, Z.ltb_ge. lia. }
  rewrite Z.eqb_refl. cbn [negb].
  rewrite <- (Qcompare_antisym s1 s2). by destruct (s1 ?= s2)%Q.
Qed.

Lemma priority_nlt_trans a b c :
  priority_lt a b = false -> priority_lt b c = false ->
  priority_lt a c = false.
Proof.
  rewrite !priority_lt_false.
  intros [?|[? [?|[? Hq1]]]] [?|[? [?|[? Hq2]]]];
    first [ left; lia
          | right; split; [lia|];
            first [ left; lia
                  | right; split; [lia|]; by apply (Qle_trans _ b.2) ] ].
Qed.

(** [sorted] leaves no inversion when the comparison is a strict weak
    order. *)
Section SortedOrder.
Context {A : Type} (lt : A -> A -> bool).
Hypothesis lt_asym : forall x y, lt x y = true -> lt y x = false.
Hypothesis nlt_trans :
  forall x y z, lt x y = false -> lt y z = false -> lt x z = false.

Lemma insert_sorted_ordered x l :
  StronglySorted (fun a b => lt b a = false) l ->
  StronglySorted (fun a b => lt b a = false) (insert_sorted lt x l).
Proof.
  induction 1 as [|y l Hl IH Hy]; cbn [insert_sorted].
  - repeat constructor.
  - destruct (lt y x) eqn:E.
    + constructor; [done|].
      rewrite insert_sorted_perm. constructor; [by apply lt_asym | done].
    + constructor; [by constructor|].
      constructor; [done|].
      eapply Forall_impl; [exact Hy|]. cbn. intros z Hz.
      by apply (nlt_trans z y x).
Qed.

Lemma sorted_ordered l :
  StronglySorted (fun a b => lt b a = false) (sorted lt l).
Proof.
  induction l as [|x l IH]; cbn [sorted]; [constructor|].
  by apply insert_sorted_ordered.
Qed.

Lemma sorted_fixed l :
  StronglySorted (fun a b => lt b a = false) l -> sorted lt l = l.
Proof.
  induction 1 as [|x l Hl IH Hx]; cbn [sorted]; [done|].
  rewrite IH. destruct l as [|y l]; [done|]. cbn [insert_sorted].
  apply Forall_cons in Hx as [-> _]. done.
Qed.
End SortedOrder.

Lemma sorted_by_priority_ordered detections :
  StronglySorted (fun a b => by_priority b a = false)
    (sorted by_priority detections).
Proof.
  apply sorted_ordered.
  - intros x y. apply priority_lt_asym.
  - intros x y z. apply priority_nlt_trans.
Qed.

(** The greedy walk keeps a sublist of what it walks. *)
Lemma fold_accept_sublist l : forall result,
  exists kept, fold_left accept l result = result ++ kept /\
               kept `sublist_of` l.
Proof.
  induction l as [|d l IH]; intros result; cbn [fold_left].
  - exists []. by rewrite app_nil_r.
  - destruct (IH (accept result d)) as (kept & -> & Hsub).
    unfold accept. destruct (should_add d result).
    + exists (d :: kept). rewrite <- app_assoc. split; [done|].
      by constructor.
    + exists kept. split; [done|]. by constructor.
Qed.

Lemma remove_overlapping_sublist detections :
  _remove_overlapping detections `sublist_of` sorted by_priority detections.
Proof.
  unfold _remove_overlapping. destruct detections as [|d ds]; [done|].
  destruct (fold_accept_sublist (sorted by_priority (d :: ds)) [])
    as (kept & H & Hsub).
  unfold by_priority in *. by rewrite H.
Qed.

Lemma StronglySorted_sublist {A} (R : A -> A -> Prop) l k :
  l `sublist_of` k -> StronglySorted R k -> StronglySorted R l.
Proof.
  induction 1 as [|x l k Hsub IH|x l k Hsub IH]; intros Hk.
  - constructor.
  - apply StronglySorted_inv in Hk as [Hk Hx].
    constructor; [by apply IH|].
    rewrite Forall_forall in Hx |- *. intros y Hy. apply Hx.
    by eapply elem_of_sublist.
  - apply StronglySorted_inv in Hk as [Hk _]. by apply IH.
Qed.

Lemma fold_accept_disjoint l : forall result,
  StronglySorted disjoint (result ++ l) ->
  fold_left accept l result = result ++ l.
Proof.
  induction l as [|d l IH]; intros result Hd; cbn [fold_left].
  - by rewrite app_nil_r.
  - assert (accept result d = result ++ [d]) as ->.
    { unfold accept. rewrite (proj2 (should_add_true d result)); [done|].
      apply Forall_forall. intros a Ha.
      eapply (StronglySorted_app_1_elem_of _ _ _ a d Hd); [done | by left]. }
    rewrite IH; rewrite <- app_assoc; done.
Qed.

Lemma remove_overlapping_ordered detections :
  StronglySorted (fun a b => by_priority b a = false)
    (_remove_overlapping detections).
Proof.
  eapply StronglySorted_sublist; [apply remove_overlapping_sublist|].
  apply sorted_by_priority_ordered.
Qed.

(** X5. The output of [_remove_overlapping] is in priority order, best
    first, not in text order: it is a sublist of the candidates sorted
    by priority, and no entry has a strictly better priority than an
    entry before it. *)
Theorem remove_overlapping_in_priority_order (detections : list Detection) :
  _remove_overlapping detections
    `sublist_of`
    sorted (fun a b => priority_lt (get_priority a) (get_priority b))
      detections /\
  StronglySorted
    (fun a b => priority_lt (get_priority b) (get_priority a) = false)
    (_remove_overlapping detections).
Proof.
  split; [apply remove_overlapping_sublist | apply remove_overlapping_ordered].
Qed.

(** X6. Overlap resolution is idempotent: resolving its own output
    changes nothing. *)
Theorem remove_overlapping_idempotent (detections : list Detection) :
  _remove_overlapping (_remove_overlapping detections)
  = _remove_overlapping detections.
Proof.
  pose proof (remove_overlapping_ordered detections) as Hs.
  assert (StronglySorted disjoint (_remove_overlapping detections)) as Hd.
  { unfold _remove_overlapping. destruct detections; [constructor|].
    apply fold_accept_pairs_disjoint. constructor. }
  generalize dependent (_remove_overlapping detections). intros out Hs Hd.
  unfold _remove_overlapping at 1. destruct out as [|d out]; [done|].
  fold by_priority. rewrite (sorted_fixed _ _ Hs).
  by apply fold_accept_disjoint.
Qed.

Lemma remove_overlapping_rejected detections d :
  d ∈ detections ->
  d ∈ _remove_overlapping detections \/
  exists a, a ∈ _remove_overlapping detections /\
            overlaps d a = true /\
            priority_lt (get_priority d) (get_priority a) = false.
Proof.
  intros Hin. unfold _remove_overlapping.
  destruct detections as [|d0 ds]; [by apply elem_of_nil in Hin|].
  pose proof (sorted_by_priority_ordered (d0 :: ds)) as Hsorted.
  unfold by_priority in Hsorted.
  rewrite <- (sorted_perm
    (fun a b => priority_lt (get_priority a) (get_priority b))) in Hin.
  apply list_elem_of_split in Hin as (l1 & l2 & Hsplit).
  rewrite Hsplit in Hsorted |- *. rewrite fold_left_app. cbn [fold_left].
  set (walked := fold_left accept l1 []).
  destruct (should_add d walked) eqn:E.
  - left. apply fold_accept_keeps. unfold accept. rewrite E.
    apply elem_of_app. right. by left.
  - right. apply should_add_false in E as (a & Ha & Hov).
    exists a. split; [by apply fold_accept_keeps, accept_keeps|].
    split; [done|].
    apply fold_accept_subset in Ha as [Ha|Ha]; [by apply elem_of_nil in Ha|].
    eapply (StronglySorted_app_1_elem_of _ _ _ a d Hsorted);
      [done | by left].
Qed.

(** X7. Overlap resolution drops nothing without a reason: a candidate
    that is not retained overlaps a retained candidate whose priority
    is at least as good. *)
Theorem remove_overlapping_maximal (detections : list Detection)
    (d : Detection) :
  d ∈ detections ->
  d ∈ _remove_overlapping detections \/
  exists a, a ∈ _remove_overlapping detections /\
            overlaps d a = true /\
            priority_lt (get_priority d) (get_priority a) = false.
Proof. apply remove_overlapping_rejected. Qed.

(** X8. A candidate that has strictly better priority than every other
    candidate it overlaps is always retained. *)
Theorem strictly_best_is_retained (detections : list Detection)
    (d : Detection) :
  d ∈ detections ->
  (forall c, c ∈ detections -> overlaps d c = true ->
             c = d \/
             priority_lt (get_priority d) (get_priority c) = true) ->
  d ∈ _remove_overlapping detections.
Proof.
  intros Hin Hbest.
  destruct (remove_overlapping_rejected detections d Hin)
    as [|(a & Ha & Hov & Hlt)]; [done|].
  destruct (Hbest a) as [->|Hbetter];
    [by apply remove_overlapping_subset | done | done | congruence].
Qed.

(** ** The context detector: types and spans *)

Ltac in_list :=
  repeat first [ apply list_elem_of_here | apply list_elem_of_further ].

Lemma map_type_image ty entity_type :
  LLM._map_type ty = Ok entity_type ->
  entity_type ∈ [u8 "PERSON"; u8 "ORGANIZATION"; u8 "PROJECT_NAME";
                 u8 "CONFIDENTIAL"].
Proof.
  destruct ty as [| | |s| |]; cbn [LLM._map_type]; intros H;
    first [discriminate H | injection H as <-].
  1-3: vm_compute; in_list.
  destruct (LLM.mapping !! s) as [v|] eqn:E; cbn [default];
    [|vm_compute; in_list].
  unfold LLM.mapping in E. apply elem_of_list_to_map_2 in E.
  repeat (apply elem_of_cons in E as [E|E];
          [injection E as _ Hv; subst v; vm_compute; in_list|]).
  by apply elem_of_nil in E.
Qed.

Lemma detect_item_type text item d :
  LLM.detect_item text item = Ok (Some d) ->
  LLM.score d = 0.75%Q /\
  exists ty, LLM._map_type ty = Ok (LLM.entity_type d).
Proof.
  unfold LLM.detect_item.
  destruct (LLM.get item (u8 "value") (LLM.JStr [])) as [value|]; [|done].
  cbn [mbind result_bind bind].
  destruct (negb (LLM.truthy value)); [done|].
  destruct value as [| | |v| |]; try done.
  destruct (find text v =? -1); [done|].
  destruct (LLM.get item (u8 "type") _) as [ty|]; [|done].
  cbn [mbind result_bind bind].
  destruct (LLM._map_type ty) as [entity_type|] eqn:E; [|done].
  cbn [mbind result_bind bind]. intros [= <-]. cbn. split; [done|].
  by exists ty.
Qed.

(** X9. Every detection of the context detector has score 0.75 and one
    of the entity types PERSON, ORGANIZATION, PROJECT_NAME, CONFIDENTIAL,
    whatever type the model answered; so its mask label is one of 個人名,
    会社名, プロジェクト名, 機密情報 and its method rank is 2 or 3. *)
Theorem llm_detections_are_labelled (self : LLM.LLMDetector) (text : pystr)
    (ds : list LLM.LLMDetection) (d : LLM.LLMDetection) :
  LLM.detect self text = Ok ds -> d ∈ ds ->
  LLM.score d = 0.75%Q /\
  LLM.entity_type d ∈ [u8 "PERSON"; u8 "ORGANIZATION"; u8 "PROJECT_NAME";
                       u8 "CONFIDENTIAL"] /\
  get_entity_label (LLM.entity_type d)
    ∈ [u8 "個人名"; u8 "会社名"; u8 "プロジェクト名"; u8 "機密情報"] /\
  2 <= method_priority (of_llm d) <= 3.
Proof.
  intros Hds Hd.
  destruct (llm_detect_located _ _ _ _ Hds Hd) as [item Hitem].
  apply detect_item_type in Hitem as [Hscore [ty Hty]].
  apply map_type_image in Hty.
  split; [done|]. split; [done|].
  unfold method_priority. cbn [of_llm entity_type method].
  repeat (apply elem_of_cons in Hty as [->|Hty]);
    [..|by apply elem_of_nil in Hty];
    (split; [vm_compute; in_list | vm_compute; split; discriminate]).
Qed.

Lemma llm_detection_span (self : LLM.LLMDetector)
    (text : pystr) (ds : list LLM.LLMDetection) (d : LLM.LLMDetection) :
  LLM.detect self text = Ok ds -> d ∈ ds ->
  valid_span text (of_llm d) /\
  slice text (LLM.start d) (LLM.end_ d) = LLM.text d.
Proof.
  intros Hds Hd.
  destruct (llm_detect_located _ _ _ _ Hds Hd) as [item Hitem].
  apply detect_item_located in Hitem as (Hne & Hstart & Hfound & Hend).
  destruct (find_first_occurrence text (LLM.text d) (LLM.start d))
    as [Hocc _]; [done..|].
  destruct (occurs_at_bounds _ _ _ Hne Hocc) as (H0 & H1 & H2 & H3).
  unfold valid_span. cbn [of_llm start end_]. rewrite Hend.
  repeat split; try lia. done.
Qed.

(** X10. Every detection of the context detector is a valid span of the
    text, [0 <= start < end <= len(text)], and [text[start:end]] is the
    value the model returned. *)
Theorem llm_detections_are_valid_spans (self : LLM.LLMDetector)
    (text : pystr) (ds : list LLM.LLMDetection) (d : LLM.LLMDetection) :
  LLM.detect self text = Ok ds -> d ∈ ds ->
  valid_span text (of_llm d) /\
  slice text (LLM.start d) (LLM.end_ d) = LLM.text d.
Proof. apply llm_detection_span. Qed.

Ltac settle_raise :=
  cbn [LLM.truthy negb LLM._map_type mbind result_bind bind from_option id];
  split;
  [ intros [e He];
    first [ discriminate He | done | tauto | (repeat split; done) ]
  | intros HP;
    first [ by exists TypeError | by exists AttributeError
          | discriminate HP | done | (exfalso; tauto)
          | (exfalso; by destruct HP as (? & ? & ?)) ] ].

Lemma detect_item_raises text item :
  (exists e, LLM.detect_item text item = Raise e) <-> malformed_item text item.
Proof.
  unfold LLM.detect_item, malformed_item.
  destruct item as [| | | | |kv]; cbn [LLM.get mbind result_bind bind];
    try settle_raise.
  destruct (LLM.assoc kv (u8 "value")) as [value|]; cbn [from_option id];
    [|cbn [LLM.truthy negb bool_decide]; rewrite bool_decide_eq_true_2 by done;
      settle_raise].
  destruct value as [|b|q|v|l|kv'].
  - settle_raise.
  - destruct b; settle_raise.
  - cbn [LLM.truthy]. destruct (Qeq_bool q 0); settle_raise.
  - cbn [LLM.truthy]. case_bool_decide as Hv; [settle_raise|].
    cbn [negb].
    destruct (Z.eqb_spec (find text v) (-1)) as [Hf|Hf]; [settle_raise|].
    destruct (LLM.assoc kv (u8 "type")) as [ty|]; cbn [from_option id];
      [destruct ty|]; settle_raise.
  - destruct l; settle_raise.
  - destruct kv'; settle_raise.
Qed.

Lemma detect_loop_raises text items : forall acc item e,
  item ∈ items -> LLM.detect_item text item = Raise e ->
  exists e', LLM.detect_loop text items acc = Raise e'.
Proof.
  induction items as [|x items IH]; intros acc item e Hin Hraise.
  - by apply elem_of_nil in Hin.
  - cbn [LLM.detect_loop].
    destruct (LLM.detect_item text x) as [o|e'] eqn:Hx;
      cbn [mbind result_bind bind]; [|by eexists].
    apply elem_of_cons in Hin as [->|Hin]; [congruence|].
    by eapply IH.
Qed.

(** X11. One malformed item spoils the whole answer: if any item of the
    "detected" list makes the loop raise (see [malformed_item]), the
    context detector returns the empty list, dropping also the
    well-formed items before and after it. *)
Theorem llm_malformed_item_discards_all (self : LLM.LLMDetector)
    (text : pystr) (kv : list (pystr * LLM.json)) (items : list LLM.json)
    (item : LLM.json) :
  LLM.client_chat_json self (LLM.model self) (LLM.user_message text)
  = Ok (LLM.JDict kv) ->
  LLM.assoc kv (u8 "detected") = Some (LLM.JList items) ->
  item ∈ items ->
  malformed_item text item ->
  LLM.detect self text = Ok [].
Proof.
  intros Hchat Hdet Hin Hbad. unfold LLM.detect.
  destruct (negb (LLM.is_available self)); [done|].
  rewrite Hchat. cbn [mbind result_bind bind LLM.get]. rewrite Hdet.
  cbn [from_option id mbind result_bind bind LLM.iterate].
  apply detect_item_raises in Hbad as [e He].
  destruct (detect_loop_raises text items [] item e Hin He) as [e' ->].
  done.
Qed.

(** ** The pipeline, end to end *)

Lemma detect_outcome_llm str_upper self text language r :
  (detect str_upper self text language).2 = Ok r ->
  r = finish text (detections r) /\
  (detections r = stage12 str_upper self text language \/
   exists llm ds,
     llm_detector self = Some llm /\
     stage12 str_upper self text language = [] /\
     LLM.detect llm text = Ok ds /\
     detections r = of_llm <$> ds).
Proof.
  unfold detect. destruct (llm_gate _ _ _) eqn:E.
  - apply llm_gate_true in E as (_ & [llm Hllm] & Hnone & _).
    rewrite Hllm, Hnone. cbn [snd].
    destruct (LLM.detect llm text) as [ds|] eqn:Hds;
      cbn [mbind result_bind bind]; [|done].
    intros [= <-]. split; [done|]. right. by exists llm, ds.
  - cbn [snd]. intros [= <-]. split; [done|]. by left.
Qed.

(** X12. When the analyzer reports valid spans and no dictionary value
    is empty, every candidate of a run of [detect] is well formed
    (a valid span whose text is [text[start:end]]), dictionary and LLM
    candidates included, and [masked_text] is the input text with
    exactly the retained spans replaced by their labels: nothing
    outside them is touched. *)
Theorem detect_keeps_text_outside_spans (str_upper : pystr -> pystr)
    (self : ShieldAIEngine) (text language : pystr) (r : DetectionResult) :
  (forall res, res ∈ analyzer self text language ->
     0 <= Presidio.start res /\ Presidio.start res < Presidio.end_ res /\
     Presidio.end_ res <= len text) ->
  (forall entry, entry ∈ dictionary_entries self ->
     Dictionary.value entry <> []) ->
  (detect str_upper self text language).2 = Ok r ->
  Forall (well_formed text) (detections r) /\
  exists ascending,
    ascending ≡ₚ _remove_overlapping (detections r) /\
    StronglySorted (fun a b => end_ a <= start b) ascending /\
    masked_text r = layout text 0 (len text) ascending.
Proof.
  intros Hana Hdict Hr.
  apply detect_outcome_llm in Hr as [Hfin Hdets].
  assert (Forall (well_formed text) (detections r)) as Hwf.
  { destruct Hdets as [->|(llm & ds & _ & _ & Hds & ->)].
    - unfold stage12. apply Forall_app. split.
      + apply Forall_fmap, Forall_forall. intros res Hres.
        specialize (Hana res Hres). by split.
      + apply Forall_fmap, Forall_forall. intros d Hd.
        apply dictionary_detection_sound in Hd
          as (entry & He & _ & _ & _ & Htext & H0 & Hend & Hlen & Hs).
        assert (0 < len (Dictionary.value entry)).
        { specialize (Hdict entry He).
          destruct (Dictionary.value entry); [done|]. unfold len. cbn. lia. }
        split.
        * unfold valid_span. cbn [of_dictionary start end_]. lia.
        * cbn [of_dictionary Engine.text start end_]. congruence.
    - apply Forall_fmap, Forall_forall. intros d Hd.
      destruct (llm_detection_span _ _ _ _ Hds Hd) as [Hv Hs].
      split; [done|]. by cbn [of_llm Engine.text start end_]. }
  split; [done|].
  destruct (mask_text_layout_retained text (detections r))
    as (asc & H1 & H2 & _ & H3).
  { eapply Forall_impl; [exact Hwf|]. by intros d [? _]. }
  exists asc. split; [done|]. split; [done|].
  rewrite Hfin. cbn [masked_text finish detections]. done.
Qed.

(** ** The dictionary store *)

Section StoreFacts.
Import DictionaryStore.

Lemma known_categories_distinct : NoDup known_categories.
Proof.
  unfold known_categories.
  repeat (apply NoDup_cons; split;
          [vm_compute; intros H; repeat (apply elem_of_cons in H as [H|H];
             [discriminate H|]); by apply elem_of_nil in H|]).
  apply NoDup_nil_2.
Qed.

Lemma stored_category_known category :
  stored_category category ∈ known_categories.
Proof.
  unfold stored_category. case_bool_decide; [done|].
  unfold known_categories. do 3 apply list_elem_of_further.
  apply list_elem_of_here.
Qed.

Lemma append_to_groups (grouped : list (pystr * list Item)) key item :
  append_to grouped key item =
  (fun g : pystr * list Item =>
     (g.1, g.2 ++ if bool_decide (g.1 = key) then [item] else [])) <$> grouped.
Proof.
  unfold append_to. apply list_fmap_ext. intros _ [k g] _. cbn [fst snd].
  case_bool_decide; [done|]. by rewrite app_nil_r.
Qed.

Lemma group_step_groups (grouped : list (pystr * list Item)) e :
  grouped.*1 = known_categories ->
  group_step grouped e =
  (fun g : pystr * list Item => (g.1, g.2 ++ selected g.1 e)) <$> grouped.
Proof.
  intros Hkeys. unfold group_step. rewrite Hkeys, !append_to_groups.
  unfold selected, stored_category.
  case_bool_decide as Hc; apply list_fmap_ext; intros _ [k g] _;
    cbn [fst snd]; repeat case_bool_decide; congruence.
Qed.

Lemma fold_group_step es : forall grouped : list (pystr * list Item),
  grouped.*1 = known_categories ->
  fold_left group_step es grouped =
  (fun g : pystr * list Item =>
     (g.1, g.2 ++ (item_of <$> filed_under g.1 es))) <$> grouped.
Proof.
  induction es as [|e es IH]; intros grouped Hkeys; cbn [fold_left].
  - rewrite <- (list_fmap_id grouped) at 1. apply list_fmap_ext.
    intros _ [k g] _. cbn. by rewrite app_nil_r.
  - rewrite IH, group_step_groups by
      (try rewrite group_step_groups by done;
       try (rewrite <- list_fmap_compose, <- Hkeys; by apply list_fmap_ext);
       done).
    rewrite <- list_fmap_compose. apply list_fmap_ext.
    intros _ [k g] _. cbn [compose fst snd]. unfold filed_under, selected.
    rewrite filter_cons. rewrite <- app_assoc. f_equal.
    case_bool_decide as Hk.
    + by rewrite decide_True.
    + by rewrite decide_False.
Qed.

Lemma to_dict_groups (self : Dictionary) :
  to_dict self =
  {| doc_version := Some (version self);
     doc_updated_at := Some (updated_at self);
     doc_entries :=
       Some ((fun k => (k, item_of <$> filed_under k (entries self)))
               <$> known_categories) |}.
Proof.
  unfold to_dict. rewrite fold_group_step by done. done.
Qed.

Lemma entries_of_items_filed category l : forall acc,
  entries_of_items category (item_of <$> l) acc
  = Ok (acc ++ (with_category category <$> l)).
Proof.
  induction l as [|e l IH]; intros acc; cbn [fmap list_fmap entries_of_items].
  - by rewrite app_nil_r.
  - cbn [entry_of item_of item_value item_label mbind result_bind bind
         from_option id].
    change (list_fmap _ _ item_of l) with (item_of <$> l).
    change (list_fmap _ _ (with_category category) l)
      with (with_category category <$> l).
    rewrite IH, <- app_assoc. done.
Qed.

Lemma entries_of_groups_filed es ks : forall acc,
  entries_of_groups ((fun k => (k, item_of <$> filed_under k es)) <$> ks) acc
  = Ok (acc ++ (ks ≫= fun k => with_category k <$> filed_under k es)).
Proof.
  induction ks as [|k ks IH]; intros acc;
    cbn [fmap list_fmap entries_of_groups].
  - cbn. by rewrite app_nil_r.
  - rewrite entries_of_items_filed. cbn [mbind result_bind bind].
    change (list_fmap _ _ ?f ks) with (f <$> ks).
    rewrite IH, bind_cons, <- app_assoc. done.
Qed.

Lemma bind_select {A} (ks : list pystr) (key : A -> pystr)
    (f : pystr -> A -> A) (e : A) (F : pystr -> list A) :
  NoDup ks -> key e ∈ ks ->
  (ks ≫= fun k => if decide (key e = k) then f k e :: F k else F k)
  ≡ₚ f (key e) e :: (ks ≫= F).
Proof.
  induction ks as [|k ks IH]; intros Hnd Hin.
  - by apply elem_of_nil in Hin.
  - apply NoDup_cons in Hnd as [Hk Hnd]. rewrite !bind_cons.
    destruct (decide (key e = k)) as [<-|Hne].
    + cbn [app]. f_equal.
      assert ((ks ≫= fun k => if decide (key e = k)
                               then f k e :: F k else F k) = ks ≫= F) as ->;
        [|done].
      clear IH Hnd Hin. induction ks as [|k ks IH]; [done|].
      rewrite !bind_cons. rewrite not_elem_of_cons in Hk.
      destruct Hk as [Hne Hk]. rewrite decide_False by done.
      by rewrite IH.
    + apply elem_of_cons in Hin as [?|Hin]; [done|].
      rewrite IH by done. by rewrite Permutation_middle.
Qed.

Lemma regroup_permutation es :
  regroup es ≡ₚ
  (fun e => with_category (stored_category (Dictionary.category e)) e) <$> es.
Proof.
  unfold regroup. induction es as [|e es IH]; [done|].
  rewrite fmap_cons, <- IH.
  assert ((known_categories ≫=
             fun k => with_category k <$> filed_under k (e :: es))
          = known_categories ≫=
             fun k => if decide (stored_category (Dictionary.category e) = k)
                      then with_category k e
                             :: (with_category k <$> filed_under k es)
                      else with_category k <$> filed_under k es) as ->.
  { apply list_bind_ext; [|done]. intros k.
    unfold filed_under. rewrite filter_cons.
    destruct (decide (stored_category (Dictionary.category e) = k)); done. }
  apply (bind_select known_categories
           (fun e => stored_category (Dictionary.category e))
           with_category e
           (fun k => with_category k <$> filed_under k es)).
  - apply known_categories_distinct.
  - apply stored_category_known.
Qed.

Lemma from_dict_to_dict (self : Dictionary) :
  from_dict (to_dict self)
  = Ok {| version := version self;
          updated_at := updated_at self;
          entries := regroup (entries self) |} /\
  regroup (entries self) ≡ₚ
    (fun e => with_category (stored_category (Dictionary.category e)) e)
      <$> entries self /\
  values (regroup (entries self)) ≡ₚ values (entries self).
Proof.
  split; [|split].
  - rewrite to_dict_groups. unfold from_dict.
    cbn [doc_entries doc_version doc_updated_at from_option id].
    rewrite entries_of_groups_filed. done.
  - apply regroup_permutation.
  - unfold values. rewrite regroup_permutation, <- list_fmap_compose.
    done.
Qed.

(** X16. [from_dict(to_dict(d))] succeeds and keeps version and
    timestamp; the entries come back grouped (companies, projects,
    persons, custom, each in its old order), none lost or duplicated,
    with value and label unchanged; a category outside the four becomes
    "custom". *)
Theorem from_dict_to_dict_regroups (self : Dictionary) :
  from_dict (to_dict self)
  = Ok {| version := version self;
          updated_at := updated_at self;
          entries := regroup (entries self) |} /\
  regroup (entries self) ≡ₚ
    (fun e => with_category (stored_category (Dictionary.category e)) e)
      <$> entries self /\
  values (regroup (entries self)) ≡ₚ values (entries self).
Proof. apply from_dict_to_dict. Qed.

Lemma has_value_true value entries :
  has_value value entries = true <-> value ∈ values entries.
Proof.
  unfold has_value, values. rewrite existsb_exists, list_elem_of_fmap.
  split.
  - intros (e & He & Hv). apply bool_decide_eq_true in Hv.
    exists e. by rewrite <- list_elem_of_In in He.
  - intros (e & -> & He). exists e. rewrite <- list_elem_of_In.
    split; [done|]. by apply bool_decide_eq_true.
Qed.

Lemma has_value_false value entries :
  has_value value entries = false <-> value ∉ values entries.
Proof.
  rewrite <- has_value_true. destruct (has_value value entries);
    split; congruence.
Qed.

Lemma pop_first_none value entries :
  pop_first value entries = None <-> value ∉ values entries.
Proof.
  unfold values. induction entries as [|e entries IH]; cbn [pop_first].
  - split; [intros _; apply not_elem_of_nil | done].
  - rewrite fmap_cons, not_elem_of_cons. case_bool_decide as Hv.
    + split; [done | intros [? _]; congruence].
    + destruct (pop_first value entries); cbn [fmap option_fmap option_map].
      * split; [done|]. intros [_ H]. by apply IH in H.
      * split; [|done]. intros _. split; [congruence | by apply IH].
Qed.

Lemma pop_first_some value entries entries' :
  pop_first value entries = Some entries' ->
  exists l1 e l2,
    entries = l1 ++ e :: l2 /\ Dictionary.value e = value /\
    (value ∉ values l1) /\ entries' = l1 ++ l2.
Proof.
  revert entries'. induction entries as [|e entries IH]; intros entries';
    cbn [pop_first]; [done|].
  case_bool_decide as Hv.
  - intros [= <-]. exists [], e, entries. repeat split; try done.
    apply not_elem_of_nil.
  - destruct (pop_first value entries) as [rest|];
      cbn [fmap option_fmap option_map]; [|done].
    intros [= <-].
    destruct (IH rest eq_refl) as (l1 & e' & l2 & -> & He & Hl1 & ->).
    exists (e :: l1), e', l2. repeat split; try done.
    unfold values. rewrite fmap_cons, not_elem_of_cons. split; [congruence|done].
Qed.

Lemma add_entry_cases (self : Dictionary)
    (value label category now : pystr) :
  let new := {| Dictionary.value := value; Dictionary.label := label;
                Dictionary.category := category |} in
  (((add_entry self value label category now).1 = false) <->
   value ∈ values (entries self)) /\
  (value ∈ values (entries self) ->
   (add_entry self value label category now).2 = self) /\
  (value ∉ values (entries self) ->
   (add_entry self value label category now).2
   = {| version := version self; updated_at := now;
        entries := entries self ++ [new] |}) /\
  (NoDup (values (entries self)) ->
   NoDup (values (entries (add_entry self value label category now).2))).
Proof.
  intros new. unfold add_entry.
  destruct (has_value value (entries self)) eqn:E.
  - apply has_value_true in E. cbn [fst snd]. repeat split; try done.
  - apply has_value_false in E. cbn [fst snd entries]. repeat split; try done.
    intros Hnd. unfold values in *. rewrite fmap_app.
    apply NoDup_app. split; [done|]. split.
    + intros x Hx ->%list_elem_of_singleton. done.
    + apply NoDup_singleton.
Qed.

(** X13. [Dictionary.add_entry] refuses a value already present and
    then changes nothing, not even [updated_at]; otherwise it appends
    the entry last and stamps [updated_at]; either way values that were
    unique stay unique. *)
Theorem add_entry_keeps_values_unique (self : Dictionary)
    (value label category now : pystr) :
  let new := {| Dictionary.value := value; Dictionary.label := label;
                Dictionary.category := category |} in
  (((add_entry self value label category now).1 = false) <->
   value ∈ values (entries self)) /\
  (value ∈ values (entries self) ->
   (add_entry self value label category now).2 = self) /\
  (value ∉ values (entries self) ->
   (add_entry self value label category now).2
   = {| version := version self; updated_at := now;
        entries := entries self ++ [new] |}) /\
  (NoDup (values (entries self)) ->
   NoDup (values (entries (add_entry self value label category now).2))).
Proof. apply add_entry_cases. Qed.

(** X14. [Dictionary.remove_entry] returns False and changes nothing when
    no entry has the value; otherwise it removes the first entry with
    that value and stamps [updated_at]; when values are unique the
    value is gone afterwards. *)
Theorem remove_entry_removes_first (self : Dictionary) (value now : pystr) :
  ((remove_entry self value now).1 = false <->
   value ∉ values (entries self)) /\
  (value ∉ values (entries self) ->
   (remove_entry self value now).2 = self) /\
  (value ∈ values (entries self) ->
   exists l1 e l2,
     entries self = l1 ++ e :: l2 /\ Dictionary.value e = value /\
     (value ∉ values l1) /\
     (remove_entry self value now).2
     = {| version := version self; updated_at := now;
          entries := l1 ++ l2 |}) /\
  (NoDup (values (entries self)) ->
   (value ∉ values (entries (remove_entry self value now).2)) /\
   NoDup (values (entries (remove_entry self value now).2))).
Proof.
  unfold remove_entry.
  destruct (pop_first value (entries self)) as [rest|] eqn:E.
  - destruct (pop_first_some _ _ _ E) as (l1 & e & l2 & Hsplit & He & Hl1 & ->).
    assert (value ∈ values (entries self)) as Hin.
    { rewrite Hsplit. unfold values. rewrite fmap_app, fmap_cons, He.
      apply elem_of_app. right. by left. }
    cbn [fst snd entries]. split; [done|]. split; [done|].
    split; [intros _; by exists l1, e, l2|].
    rewrite Hsplit. unfold values in *.
    rewrite !fmap_app, fmap_cons, He.
    intros Hnd. apply NoDup_app in Hnd as (Hnd1 & Hdisj & Hnd2).
    apply NoDup_cons in Hnd2 as [Hv Hnd2].
    split.
    + rewrite elem_of_app. intros [?|?]; done.
    + apply NoDup_app. split; [done|]. split; [|done].
      intros x Hx Hx2. apply (Hdisj x Hx). by right.
  - apply pop_first_none in E. cbn [fst snd]. split; [done|].
    split; [done|]. split; [done|]. by intros Hnd.
Qed.

(** X15. Adding a new value and removing it again restores the entries
    as they were. *)
Theorem add_then_remove_restores (self : Dictionary)
    (value label category now now' : pystr) :
  value ∉ values (entries self) ->
  remove_entry (add_entry self value label category now).2 value now'
  = (true, {| version := version self; updated_at := now';
              entries := entries self |}).
Proof.
  intros Hv. unfold add_entry.
  rewrite (proj2 (has_value_false _ _) Hv). cbn [snd].
  unfold remove_entry. cbn [entries version].
  assert (forall l, value ∉ values l ->
            pop_first value
              (l ++ [ {| Dictionary.value := value; Dictionary.label := label;
                         Dictionary.category := category |} ]) = Some l) as H.
  { induction l as [|e l IH]; intros Hl; cbn [pop_first app].
    - by rewrite bool_decide_eq_true_2.
    - unfold values in Hl. rewrite fmap_cons, not_elem_of_cons in Hl.
      destruct Hl as [Hne Hl].
      rewrite bool_decide_eq_false_2 by congruence.
      by rewrite IH. }
  by rewrite H.
Qed.


Lemma entries_of_items_raises category items : forall acc,
  (exists e, entries_of_items category items acc = Raise e) <->
  exists item, item ∈ items /\ item_value item = None.
Proof.
  induction items as [|item items IH]; intros acc; cbn [entries_of_items].
  - split; [by intros [? ?]|]. intros (? & ?%elem_of_nil & _). done.
  - unfold entry_of. destruct (item_value item) as [v|] eqn:Hv;
      cbn [mbind result_bind bind].
    + rewrite IH. split.
      * intros (i & Hi & Hn). exists i. split; [by right|done].
      * intros (i & [->|Hi]%elem_of_cons & Hn); [congruence|].
        by exists i.
    + split; [|by eexists]. intros _. exists item. split; [by left|done].
Qed.

Lemma entries_of_items_ok category items acc :
  (exists l, entries_of_items category items acc = Ok l) \/
  (exists e, entries_of_items category items acc = Raise e).
Proof. destruct (entries_of_items category items acc); eauto. Qed.

Lemma entries_of_groups_raises groups : forall acc,
  (exists e, entries_of_groups groups acc = Raise e) <->
  exists category items item,
    (category, items) ∈ groups /\ item ∈ items /\ item_value item = None.
Proof.
  induction groups as [|[c items] groups IH]; intros acc;
    cbn [entries_of_groups].
  - split; [by intros [? ?]|]. intros (? & ? & ? & ?%elem_of_nil & _). done.
  - destruct (entries_of_items c items acc) as [l|e] eqn:E;
      cbn [mbind result_bind bind].
    + rewrite IH. split.
      * intros (c' & is' & i & Hin & Hi & Hn).
        exists c', is', i. split; [by right|done].
      * intros (c' & is' & i & [[= -> ->]|Hin]%elem_of_cons & Hi & Hn).
        { assert (exists e, entries_of_items c items acc = Raise e) as [e He].
          { apply entries_of_items_raises. by exists i. }
          congruence. }
        by exists c', is', i.
    + split; [|by eexists]. intros _.
      assert (exists e, entries_of_items c items acc = Raise e) as H
        by by eexists.
      apply entries_of_items_raises in H as (i & Hi & Hn).
      exists c, items, i. split; [by left|done].
Qed.

(** X17. [from_dict] raises exactly when some item has no "value" key;
    without an "entries" key it gives an empty dictionary with the
    defaults for the missing version and timestamp. *)
Theorem from_dict_raises_on_missing_value (data : Document) :
  ((exists e, from_dict data = Raise e) <->
   exists category items item,
     (category, items) ∈ default [] (doc_entries data) /\
     item ∈ items /\ item_value item = None) /\
  (doc_entries data = None ->
   from_dict data
   = Ok {| version := default (u8 "1.0") (doc_version data);
           updated_at := default [] (doc_updated_at data);
           entries := [] |}).
Proof.
  split.
  - rewrite <- (entries_of_groups_raises _ []). unfold from_dict.
    destruct (entries_of_groups _ _) as [l|e]; cbn [mbind result_bind bind];
      split; intros [e' H]; (discriminate H || by eexists).
  - intros H. unfold from_dict. by rewrite H.
Qed.

(** X18. After the manager adds a new value, it reports the entry last
    in its list, and a manager started afresh on the file it wrote
    reads all the entries back, regrouped by category. *)
Theorem manager_add_survives_restart (self : DictionaryManager)
    (value label category now : pystr) :
  let d := (dictionary self).1 in
  let new := {| Dictionary.value := value; Dictionary.label := label;
                Dictionary.category := category |} in
  value ∉ values (entries d) ->
  (manager_add_entry self value label category now).1 = true /\
  (get_all_entries (manager_add_entry self value label category now).2).1
  = entries d ++ [new] /\
  (get_all_entries
     {| custom_path :=
          custom_path (manager_add_entry self value label category now).2;
        _dictionary := None |}).1
  = regroup (entries d ++ [new]).
Proof.
  intros d new Hv. unfold manager_add_entry.
  destruct (dictionary self) as [d0 self1] eqn:Hd. cbn [fst] in d.
  subst d. unfold add_entry.
  rewrite (proj2 (has_value_false _ _) Hv).
  unfold save_dictionary, dictionary, get_all_entries.
  cbn [_dictionary custom_path fst snd entries dictionary].
  split; [done|]. split; [done|].
  unfold dictionary, _load_dictionary. cbn [_dictionary custom_path].
  subst new.
  destruct (from_dict_to_dict
              {| version := version d0; updated_at := now;
                 entries := entries d0
                   ++ [ {| Dictionary.value := value;
                           Dictionary.label := label;
                           Dictionary.category := category |} ] |})
    as [-> _].
  done.
Qed.

(** X19. A dictionary file that cannot be read, or holds an item
    without "value", loads as the empty dictionary; the first addition
    then overwrites the file with the new entry alone. *)
Theorem manager_add_on_broken_file (self : DictionaryManager)
    (value label category now : pystr) :
  _dictionary self = None ->
  custom_path self = Unreadable \/
  (exists data e, custom_path self = Stored data /\ from_dict data = Raise e) ->
  let kept := {| version := u8 "1.0"; updated_at := now;
                 entries := [ {| Dictionary.value := value;
                                 Dictionary.label := label;
                                 Dictionary.category := category |} ] |} in
  manager_add_entry self value label category now
  = (true, {| custom_path := Stored (to_dict kept);
              _dictionary := Some kept |}).
Proof.
  intros Hnone Hbroken kept. unfold manager_add_entry, dictionary.
  rewrite Hnone.
  assert (_load_dictionary self = empty) as ->.
  { unfold _load_dictionary.
    destruct Hbroken as [->|(data & e & -> & ->)]; done. }
  done.
Qed.


Section ImportFacts.
Variable str_strip : pystr -> pystr.
Variable now : nat -> pystr.

Lemma import_row_appends d count i row :
  exists added,
    entries (import_row str_strip now (d, count) (i, row)).1
    = entries d ++ added /\
    (import_row str_strip now (d, count) (i, row)).2 = count + len added /\
    Forall (from_row str_strip [row]) added /\
    (NoDup (values (entries d)) ->
     NoDup (values
              (entries (import_row str_strip now (d, count) (i, row)).1))).
Proof.
  unfold import_row.
  destruct row as [|r0 [|r1 more]];
    try (exists []; cbn [fst snd]; rewrite app_nil_r;
         repeat split; [unfold len; cbn; lia | constructor | done]).
  destruct (str_strip r1) as [|c v] eqn:Hval;
    [exists []; cbn [fst snd]; rewrite app_nil_r;
     repeat split; [unfold len; cbn; lia | constructor | done]|].
  set (label := match more with r2 :: _ => str_strip r2
                | [] => str_strip r0 end).
  set (category := default (u8 "custom") (category_map !! str_strip r0)).
  pose proof (add_entry_cases d (c :: v) label category (now i))
    as (Hflag & Hsame & Hnew & Hnd).
  destruct (add_entry d (c :: v) label category (now i)) as [added d'] eqn:E.
  cbn [fst snd] in *. destruct added.
  - assert (c :: v ∉ values (entries d)) as Hfresh.
    { intros Hin. apply Hflag in Hin. done. }
    rewrite (Hnew Hfresh) in *. eexists. split; [reflexivity|].
    split; [unfold len; cbn; lia|]. split; [|done].
    constructor; [|constructor].
    exists r0, r1, more. cbn. rewrite Hval.
    split; [by left|]. done.
  - rewrite (Hsame (proj1 Hflag eq_refl)) in *.
    exists []. rewrite app_nil_r.
    repeat split; [unfold len; cbn; lia | constructor | done].
Qed.

Lemma from_row_weaken rows rows' e :
  (forall row, row ∈ rows -> row ∈ rows') -> from_row str_strip rows e -> from_row str_strip rows' e.
Proof.
  intros Hsub (r0 & r1 & more & Hin & H). exists r0, r1, more.
  split; [by apply Hsub | done].
Qed.

Lemma fold_import_row_appends (l : list (nat * list pystr)) : forall d count,
  exists added,
    entries (fold_left (import_row str_strip now) l (d, count)).1
    = entries d ++ added /\
    (fold_left (import_row str_strip now) l (d, count)).2
    = count + len added /\
    Forall (from_row str_strip l.*2) added /\
    (NoDup (values (entries d)) ->
     NoDup (values
              (entries (fold_left (import_row str_strip now) l
                          (d, count)).1))).
Proof.
  induction l as [|[i row] l IH]; intros d count; cbn [fold_left].
  - exists []. rewrite app_nil_r. cbn [fst snd].
    repeat split; [unfold len; cbn; lia | constructor | done].
  - destruct (import_row_appends d count i row)
      as (added1 & H1 & H2 & H3 & H4).
    destruct (import_row str_strip now (d, count) (i, row)) as [d1 c1].
    cbn [fst snd] in *.
    destruct (IH d1 c1) as (added2 & G1 & G2 & G3 & G4).
    exists (added1 ++ added2).
    split; [by rewrite G1, H1, app_assoc|].
    split; [rewrite G2, H2, len_app; lia|].
    split; [|by intros ?; apply G4, H4].
    rewrite fmap_cons. cbn [snd]. apply Forall_app. split.
    + eapply Forall_impl; [exact H3|]. intros e.
      apply from_row_weaken. intros r ->%list_elem_of_singleton. by left.
    + eapply Forall_impl; [exact G3|]. intros e.
      apply from_row_weaken. intros r Hr. by right.
Qed.

(** X20. [import_csv] skips the header row, appends entries accounted
    for by later rows (non-empty stripped value, mapped category),
    returns the number appended, keeps values unique, and writes the
    file exactly when that number is positive. *)
Theorem import_csv_counts_added (self : DictionaryManager)
    (rows : list (list pystr)) :
  let d := (dictionary self).1 in
  let out := import_csv str_strip now self rows in
  exists d' added,
    _dictionary out.2 = Some d' /\
    entries d' = entries d ++ added /\
    out.1 = len added /\
    Forall (from_row str_strip (tail rows)) added /\
    (NoDup (values (entries d)) -> NoDup (values (entries d'))) /\
    (0 < out.1 -> custom_path out.2 = Stored (to_dict d')) /\
    (out.1 = 0 -> custom_path out.2 = custom_path self).
Proof.
  intros d out. subst d out. unfold import_csv.
  destruct (dictionary self) as [d self1] eqn:Hd. cbn [fst].
  assert (custom_path self1 = custom_path self) as Hpath.
  { unfold dictionary in Hd. destruct (_dictionary self);
      injection Hd as _ <-; done. }
  set (l := imap (fun i row => (i, row)) (tail rows)).
  assert (l.*2 = tail rows) as Hl.
  { unfold l. generalize (tail rows). intros rs.
    rewrite fmap_imap. unfold compose. cbn [snd].
    induction rs as [|r rs IH] using rev_ind; [done|].
    rewrite imap_app. cbn [imap]. by rewrite IH. }
  destruct (fold_import_row_appends l d 0)
    as (added & H1 & H2 & H3 & H4).
  destruct (fold_left (import_row str_strip now) l (d, 0)) as [d' count].
  cbn [fst snd] in *. rewrite Hl in H3. subst count.
  exists d', added.
  destruct (0 <? 0 + len added) eqn:E; cbn [fst snd].
  - unfold save_dictionary, dictionary. cbn [_dictionary custom_path].
    repeat split; try done; try lia.
  - cbn [_dictionary custom_path]. apply Z.ltb_ge in E.
    repeat split; try done; try lia.
Qed.

End ImportFacts.
End StoreFacts.

(** ** The request handlers *)

Lemma server_detect_with_engine str_upper env current request :
  exists result,
    (detect str_upper (switched env current request)
       (Server.request_text request) (u8 "en")).2 = Ok result /\
    Server.detect str_upper env (Some current) request
    = ((detect str_upper (switched env current request)
          (Server.request_text request) (u8 "en")).1,
       Server.Respond
         {| Server.original_text := original_text result;
            Server.masked_text := masked_text result;
            Server.detections := Server.item_of <$> detections result;
            Server.detection_count := len (detections result) |},
       Some (switched env current request)).
Proof.
  destruct (detect_outcome str_upper (switched env current request)
              (Server.request_text request) (u8 "en")) as [llm_part H].
  eexists. split; [exact H|].
  unfold Server.detect. fold (switched env current request).
  destruct (detect str_upper (switched env current request)
              (Server.request_text request) (u8 "en")) as [events outcome].
  cbn [fst snd] in *. by rewrite H.
Qed.

(** X21. [POST /detect] answers status 500 without an engine; with one
    it always answers with a response that echoes the text, counts all
    the detections it lists, and labels each by the entity-label
    table. *)
Theorem server_detect_answers (str_upper : pystr -> pystr)
    (env : Server.Environment) (engine : option ShieldAIEngine)
    (request : Server.DetectRequest) :
  (engine = None ->
   Server.detect str_upper env engine request
   = ([], Server.HTTPError 500, None)) /\
  (forall current, engine = Some current ->
   exists response engine',
     (Server.detect str_upper env engine request).1.2
     = Server.Respond response /\
     (Server.detect str_upper env engine request).2 = Some engine' /\
     Server.original_text response = Server.request_text request /\
     Server.detection_count response = len (Server.detections response) /\
     Forall (fun item =>
               Server.label item
               = get_entity_label (Server.entity_type item))
       (Server.detections response)).
Proof.
  split; [by intros ->|]. intros current ->.
  destruct (server_detect_with_engine str_upper env current request)
    as (result & Hres & ->).
  eexists _, _. cbn [fst snd]. split; [done|]. split; [done|].
  cbn [Server.original_text Server.detection_count Server.detections].
  split.
  { destruct (detect_outcome str_upper (switched env current request)
                (Server.request_text request) (u8 "en")) as [llm_part H].
    rewrite H in Hres. by injection Hres as <-. }
  split; [unfold len; by rewrite length_fmap|].
  apply Forall_fmap, Forall_forall. by intros d _.
Qed.

(** X22. [POST /detect] can switch the LLM on but never off: the engine
    after the request has the LLM on when it was on before or the
    request asks for it, and a request that does not ask for it, or
    finds it on already, leaves the engine as it is. *)
Theorem server_detect_switches_llm_on_only (str_upper : pystr -> pystr)
    (env : Server.Environment) (current : ShieldAIEngine)
    (request : Server.DetectRequest) :
  exists engine',
    (Server.detect str_upper env (Some current) request).2 = Some engine' /\
    use_llm engine' = use_llm current || Server.request_use_llm request /\
    (Server.request_use_llm request = false \/ use_llm current = true ->
     engine' = current).
Proof.
  destruct (server_detect_with_engine str_upper env current request)
    as (result & _ & ->).
  exists (switched env current request). cbn [snd]. split; [done|].
  unfold switched.
  destruct (Server.request_use_llm request), (use_llm current) eqn:E;
    cbn [andb negb orb Server.ShieldAIEngine_init use_llm];
    repeat split; try done; try (by intros [|]); try by rewrite E.
Qed.

(** X23. The model and URL given to [POST /config] with the LLM off are
    lost: the next [POST /detect] asking for the LLM builds the engine
    with the default model "gemma2:9b" and the default URL. *)
Theorem server_config_model_lost_on_switch (str_upper : pystr -> pystr)
    (env : Server.Environment) (config : Server.ConfigRequest)
    (request : Server.DetectRequest) :
  Server.config_use_llm config = false ->
  Server.request_use_llm request = true ->
  exists engine' llm,
    (Server.detect str_upper env (Server.configure env config) request).2
    = Some engine' /\
    use_llm engine' = true /\
    llm_detector engine' = Some llm /\
    LLM.model llm = u8 "gemma2:9b" /\
    LLM.base_url llm = u8 "http://localhost:11434".
Proof.
  intros Hc Hr. unfold Server.configure.
  destruct (server_detect_with_engine str_upper env
              (Server.ShieldAIEngine_init env (Server.config_use_llm config)
                 (Server.config_llm_model config)
                 (Server.config_ollama_url config)) request)
    as (result & _ & ->).
  cbn [snd]. unfold switched. rewrite Hr, Hc.
  cbn [andb negb Server.ShieldAIEngine_init use_llm].
  eexists _, _. split; [reflexivity|]. done.
Qed.

(** X24. A request that does not ask for the LLM still has the LLM
    detector called when the engine has it on, the first two stages
    found nothing and the text is long enough. *)
Theorem server_llm_called_without_request_flag (str_upper : pystr -> pystr)
    (env : Server.Environment) (current : ShieldAIEngine)
    (request : Server.DetectRequest) :
  Server.request_use_llm request = false ->
  use_llm current = true ->
  is_Some (llm_detector current) ->
  stage12 str_upper current (Server.request_text request) (u8 "en") = [] ->
  min_text_length_for_llm current <= len (Server.request_text request) ->
  (Server.detect str_upper env (Some current) request).1.1
  = [LLMDetect (Server.request_text request)].
Proof.
  intros Hr Hu Hd Hs Hl.
  destruct (server_detect_with_engine str_upper env current request)
    as (result & _ & ->).
  cbn [fst]. unfold switched. rewrite Hr. cbn [andb].
  rewrite detect_events.
  by rewrite (proj2 (llm_gate_true current _ _)).
Qed.

(** ** Instances *)

Lemma dictionary_detections_are_occurrences_witness :
  exists entry,
    entry ∈ ex_entries_a /\
    Dictionary.entity_type ex_dict_detection
      = u8 "DICT_" ++ ascii_upper (Dictionary.category entry) /\
    Dictionary.label_ ex_dict_detection = Dictionary.label entry /\
    Dictionary.score ex_dict_detection = 0.95%Q /\
    Dictionary.text ex_dict_detection = Dictionary.value entry /\
    0 <= Dictionary.start ex_dict_detection /\
    Dictionary.end_ ex_dict_detection
      = Dictionary.start ex_dict_detection + len (Dictionary.value entry) /\
    Dictionary.end_ ex_dict_detection <= len ex_dict_text /\
    slice ex_dict_text (Dictionary.start ex_dict_detection)
      (Dictionary.end_ ex_dict_detection) = Dictionary.value entry.
Proof.
  apply (dictionary_detections_are_occurrences ascii_upper ex_entries_a
           ex_dict_text ex_dict_detection).
  apply (list_elem_of_lookup_2 _ 1%nat). vm_compute. reflexivity.
Defined.

Lemma dictionary_detect_covers_occurrences_witness :
  exists d,
    d ∈ Dictionary.detect ascii_upper ex_entries_a ex_dict_text /\
    Dictionary.text d = u8 "Apollo" /\
    Dictionary.label_ d = u8 "案件" /\
    Dictionary.start d <= 11 < Dictionary.end_ d.
Proof.
  apply (dictionary_detect_covers_occurrences ascii_upper ex_entries_a
           ex_dict_text
           {| Dictionary.value := u8 "Apollo"; Dictionary.label := u8 "案件";
              Dictionary.category := u8 "projects" |} 11).
  - apply list_elem_of_here.
  - vm_compute. discriminate.
  - split; [lia|]. apply startswith_prefix. vm_compute. reflexivity.
Defined.

Lemma dictionary_empty_value_matches_everywhere_witness :
  (fun d => (Dictionary.start d, Dictionary.end_ d))
    <$> Dictionary.detect_entry ascii_upper (u8 "ab") ex_empty_entry
  = [(0, 0); (1, 1); (2, 2)].
Proof.
  apply (dictionary_empty_value_matches_everywhere ascii_upper (u8 "ab")
           ex_empty_entry).
  reflexivity.
Defined.

Lemma remove_overlapping_maximal_witness :
  ex_person ∈ _remove_overlapping [ex_person; ex_dict; ex_url] \/
  exists a, a ∈ _remove_overlapping [ex_person; ex_dict; ex_url] /\
            overlaps ex_person a = true /\
            priority_lt (get_priority ex_person) (get_priority a) = false.
Proof.
  apply (remove_overlapping_maximal [ex_person; ex_dict; ex_url] ex_person).
  apply list_elem_of_here.
Defined.

Lemma strictly_best_is_retained_witness :
  ex_dict ∈ _remove_overlapping [ex_person; ex_dict; ex_url].
Proof.
  apply (strictly_best_is_retained [ex_person; ex_dict; ex_url] ex_dict).
  - apply list_elem_of_further, list_elem_of_here.
  - intros c Hc Hov.
    apply elem_of_cons in Hc as [->|Hc]; [right; reflexivity|].
    apply elem_of_cons in Hc as [->|Hc]; [left; reflexivity|].
    apply elem_of_cons in Hc as [->|Hc]; [discriminate Hov|].
    by apply elem_of_nil in Hc.
Defined.

Lemma llm_detections_are_labelled_witness :
  LLM.score (located ex_llm_text (u8 "個人名", u8 "田中")) = 0.75%Q /\
  LLM.entity_type (located ex_llm_text (u8 "個人名", u8 "田中"))
    ∈ [u8 "PERSON"; u8 "ORGANIZATION"; u8 "PROJECT_NAME"; u8 "CONFIDENTIAL"] /\
  get_entity_label
    (LLM.entity_type (located ex_llm_text (u8 "個人名", u8 "田中")))
    ∈ [u8 "個人名"; u8 "会社名"; u8 "プロジェクト名"; u8 "機密情報"] /\
  2 <= method_priority
         (of_llm (located ex_llm_text (u8 "個人名", u8 "田中"))) <= 3.
Proof.
  apply (llm_detections_are_labelled ex_llm ex_llm_text
           [located ex_llm_text (u8 "個人名", u8 "田中")]).
  - vm_compute. reflexivity.
  - apply list_elem_of_here.
Defined.

Lemma llm_detections_are_valid_spans_witness :
  valid_span ex_llm_text
    (of_llm (located ex_llm_text (u8 "個人名", u8 "田中"))) /\
  slice ex_llm_text
    (LLM.start (located ex_llm_text (u8 "個人名", u8 "田中")))
    (LLM.end_ (located ex_llm_text (u8 "個人名", u8 "田中")))
  = u8 "田中".
Proof.
  apply (llm_detections_are_valid_spans ex_llm ex_llm_text
           [located ex_llm_text (u8 "個人名", u8 "田中")]).
  - vm_compute. reflexivity.
  - apply list_elem_of_here.
Defined.

Lemma llm_malformed_item_discards_all_witness :
  LLM.detect ex_bad_llm ex_llm_text = Ok [].
Proof.
  apply (llm_malformed_item_discards_all ex_bad_llm ex_llm_text ex_bad_answer
           [LLM.JDict [(u8 "type", LLM.JStr (u8 "個人名"));
                       (u8 "value", LLM.JStr (u8 "田中"))];
            LLM.JNum 5]
           (LLM.JNum 5)).
  - reflexivity.
  - vm_compute. reflexivity.
  - apply list_elem_of_further, list_elem_of_here.
  - exact I.
Defined.

Lemma detect_keeps_text_outside_spans_witness :
  exists r,
    (detect ascii_upper ex_engine (u8 "abcdefgh") (u8 "en")).2 = Ok r /\
    Forall (well_formed (u8 "abcdefgh")) (detections r).
Proof.
  eexists. split; [reflexivity|].
  apply (detect_keeps_text_outside_spans ascii_upper ex_engine
           (u8 "abcdefgh") (u8 "en")).
  - intros res Hres.
    apply elem_of_cons in Hres as [->|Hres]; [vm_compute; intuition congruence|].
    apply elem_of_cons in Hres as [->|Hres]; [vm_compute; intuition congruence|].
    by apply elem_of_nil in Hres.
  - intros entry Hentry. by apply elem_of_nil in Hentry.
  - reflexivity.
Defined.

Lemma add_entry_keeps_values_unique_witness :
  (DictionaryStore.add_entry ex_store (u8 "Apollo") (u8 "x") (u8 "custom")
     (u8 "2025-01-02T00:00:00")).2 = ex_store.
Proof.
  apply (add_entry_keeps_values_unique ex_store (u8 "Apollo") (u8 "x")
           (u8 "custom") (u8 "2025-01-02T00:00:00")).
  apply list_elem_of_here.
Defined.

Lemma remove_entry_removes_first_witness :
  (DictionaryStore.remove_entry ex_store (u8 "Gemini")
     (u8 "2025-01-02T00:00:00")).2 = ex_store.
Proof.
  apply (remove_entry_removes_first ex_store (u8 "Gemini")
           (u8 "2025-01-02T00:00:00")).
  vm_compute. intros H. apply list_elem_of_singleton in H. discriminate H.
Defined.

Lemma add_then_remove_restores_witness :
  DictionaryStore.remove_entry
    (DictionaryStore.add_entry ex_store (u8 "Gemini") (u8 "案件")
       (u8 "projects") (u8 "2025-01-02T00:00:00")).2
    (u8 "Gemini") (u8 "2025-01-03T00:00:00")
  = (true, {| DictionaryStore.version := DictionaryStore.version ex_store;
              DictionaryStore.updated_at := u8 "2025-01-03T00:00:00";
              DictionaryStore.entries := DictionaryStore.entries ex_store |}).
Proof.
  apply (add_then_remove_restores ex_store (u8 "Gemini") (u8 "案件")
           (u8 "projects") (u8 "2025-01-02T00:00:00")
           (u8 "2025-01-03T00:00:00")).
  vm_compute. intros H. apply list_elem_of_singleton in H. discriminate H.
Defined.

Lemma from_dict_raises_on_missing_value_witness :
  exists e, DictionaryStore.from_dict ex_broken_document = Raise e.
Proof.
  apply (from_dict_raises_on_missing_value ex_broken_document).
  eexists _, _, _. split; [apply list_elem_of_here|].
  split; [apply list_elem_of_here | reflexivity].
Defined.

Lemma manager_add_survives_restart_witness :
  (DictionaryStore.get_all_entries
     {| DictionaryStore.custom_path :=
          DictionaryStore.custom_path
            (DictionaryStore.manager_add_entry ex_manager (u8 "Apollo")
               (u8 "案件") (u8 "misc") (u8 "2025-01-02T00:00:00")).2;
        DictionaryStore._dictionary := None |}).1
  = regroup [ {| Dictionary.value := u8 "Apollo"; Dictionary.label := u8 "案件";
                 Dictionary.category := u8 "misc" |} ].
Proof.
  apply (manager_add_survives_restart ex_manager (u8 "Apollo") (u8 "案件")
           (u8 "misc") (u8 "2025-01-02T00:00:00")).
  apply not_elem_of_nil.
Defined.

Lemma manager_add_on_broken_file_witness :
  (DictionaryStore.manager_add_entry ex_broken_manager (u8 "Apollo")
     (u8 "案件") (u8 "projects") (u8 "2025-01-02T00:00:00")).1 = true.
Proof.
  rewrite (manager_add_on_broken_file ex_broken_manager (u8 "Apollo")
             (u8 "案件") (u8 "projects") (u8 "2025-01-02T00:00:00"));
    [reflexivity | reflexivity | by left].
Defined.

Lemma import_csv_counts_added_witness :
  exists d' added,
    DictionaryStore._dictionary
      (DictionaryStore.import_csv id ex_now ex_manager ex_rows).2 = Some d' /\
    DictionaryStore.entries d' = [] ++ added /\
    (DictionaryStore.import_csv id ex_now ex_manager ex_rows).1 = len added.
Proof.
  destruct (import_csv_counts_added id ex_now ex_manager ex_rows)
    as (d' & added & H1 & H2 & H3 & _).
  exists d', added. split; [exact H1|]. split; [exact H2 | exact H3].
Defined.

Lemma server_detect_answers_witness :
  Server.detect ascii_upper ex_env None ex_request_plain
  = ([], Server.HTTPError 500, None).
Proof.
  apply (server_detect_answers ascii_upper ex_env None ex_request_plain).
  reflexivity.
Defined.

Lemma server_detect_switches_llm_on_only_witness :
  exists engine',
    (Server.detect ascii_upper ex_env (Some ex_llm_engine)
       ex_request_plain).2 = Some engine' /\
    engine' = ex_llm_engine.
Proof.
  destruct (server_detect_switches_llm_on_only ascii_upper ex_env
              ex_llm_engine ex_request_plain) as (engine' & H1 & _ & H3).
  exists engine'. split; [exact H1|]. apply H3. left. reflexivity.
Defined.

Lemma server_config_model_lost_on_switch_witness :
  exists engine' llm,
    (Server.detect ascii_upper ex_env (Server.configure ex_env ex_config)
       ex_request_llm).2 = Some engine' /\
    use_llm engine' = true /\
    llm_detector engine' = Some llm /\
    LLM.model llm = u8 "gemma2:9b" /\
    LLM.base_url llm = u8 "http://localhost:11434".
Proof.
  exact (server_config_model_lost_on_switch ascii_upper ex_env ex_config
           ex_request_llm eq_refl eq_refl).
Defined.

Lemma server_llm_called_without_request_flag_witness :
  (Server.detect ascii_upper ex_env (Some ex_llm_engine) ex_request_plain).1.1
  = [LLMDetect (Server.request_text ex_request_plain)].
Proof.
  apply (server_llm_called_without_request_flag ascii_upper ex_env
           ex_llm_engine ex_request_plain).
  - reflexivity.
  - reflexivity.
  - by eexists.
  - reflexivity.
  - vm_compute. discriminate.
Defined.
